(** * system_architecture/solid/main.go

    A shallow embedding of the SOLID demonstration program and the proofs of
    the properties its specification states.

    Layout:
    - [Go]: the part of the Go runtime the program relies on: a run of a
      statement writes bytes to standard output and either returns or panics;
    - [strconv] and [fmt]: the fragment of the standard library the program
      calls ([fmt.Printf] with [%s] and [%.Nf], [fmt.Println] on strings);
    - package main: every type, method and function of main.go, under the
      source's names (a method [T.M] is [T_M]);
    - the theorems, one per claim of the specification.

    A Go [float64] is a primitive binary64 float, a Go [string] is a byte
    string, an interface value is [nil] or a value together with the method
    table of its dynamic type, and a pointer to a struct that is never
    mutated is [nil] or that struct. *)

From Stdlib Require Import String Ascii List ZArith Bool Lia Floats DecimalString.
Import ListNotations.

Set Warnings "-inexact-float".

Local Open Scope string_scope.

(* ===================================================================== *)
(** ** The Go runtime: output and panics *)
(* ===================================================================== *)

Module Go.

(** Run-time panics the program can raise. *)
Inductive panic : Set :=
| NilDereference  (* invalid memory address or nil pointer dereference *).

(** How the run of a statement ends. [OutsideModel] marks a call of the
    standard library with a directive or operand this development does not
    render (fmt's [%!verb(...)] diagnostics); no theorem below holds of
    such a run by accident, since each states [Returned] or [Panicked]. *)
Inductive outcome (A : Type) : Type :=
| Returned (a : A)
| Panicked (p : panic)
| OutsideModel.
Arguments Returned {A} a.
Arguments Panicked {A} p.
Arguments OutsideModel {A}.

(** A run: the bytes written to standard output, then how it ended.
    Standard output is write-only for the program, so a run is described
    by what it appends. *)
Record run (A : Type) : Type := mkRun { stdout : string; result : outcome A }.
Arguments mkRun {A} stdout result.
Arguments stdout {A} r.
Arguments result {A} r.

Definition ret {A : Type} (a : A) : run A := mkRun "" (Returned a).

Definition write (s : string) : run unit := mkRun s (Returned tt).

Definition raise {A : Type} (p : panic) : run A := mkRun "" (Panicked p).

Definition outside {A : Type} : run A := mkRun "" OutsideModel.

(** Sequencing: the second statement starts when the first has returned;
    a panic stops the run and keeps what was written before it. *)
Definition bind {A B : Type} (c : run A) (k : A -> run B) : run B :=
  match result c with
  | Returned a => mkRun (stdout c ++ stdout (k a)) (result (k a))
  | Panicked p => mkRun (stdout c) (Panicked p)
  | OutsideModel => mkRun (stdout c) OutsideModel
  end.

(** A pointer to a struct the program never mutates. *)
Definition ptr (A : Type) : Type := option A.
Definition nil {A : Type} : ptr A := None.
Definition addr {A : Type} (a : A) : ptr A := Some a.

(** A Go interpreted string literal, written with its escapes: backslash-n,
    backslash-t and a doubled backslash stand for one byte each (the only
    escapes main.go uses is the first). *)
Fixpoint lit_aux (escaped : bool) (s : string) : string :=
  match s with
  | EmptyString => if escaped then "\" else ""
  | String c rest =>
      if escaped then
        if Ascii.eqb c "n" then String "010" (lit_aux false rest)
        else if Ascii.eqb c "t" then String "009" (lit_aux false rest)
        else if Ascii.eqb c "\" then String "\" (lit_aux false rest)
        else String "\" (String c (lit_aux false rest))
      else if Ascii.eqb c "\" then lit_aux true rest
      else String c (lit_aux false rest)
  end.
Definition lit (s : string) : string := lit_aux false s.

End Go.

Declare Scope go_scope.
Delimit Scope go_scope with go.
Notation "x <- c ;; k" := (Go.bind c (fun x => k))
  (at level 61, c at next level, right associativity) : go_scope.
Notation "c ;; k" := (Go.bind c (fun _ => k))
  (at level 61, right associativity) : go_scope.
Local Open Scope go_scope.

(* ===================================================================== *)
(** ** strconv: fixed-point rendering of a float64 *)
(* ===================================================================== *)

Module strconv.

(** [num / den] rounded to the nearest integer, a tie going to the even
    neighbour ([decimal.Round] of strconv, which works on the exact decimal
    expansion of the binary value). *)
Definition round_half_even (num den : Z) : Z :=
  let q := (num / den)%Z in
  let r := (num mod den)%Z in
  match (2 * r ?= den)%Z with
  | Lt => q
  | Gt => (q + 1)%Z
  | Eq => if Z.even q then q else (q + 1)%Z
  end.

(** The value [m * 2^e], scaled by [10^prec] and rounded to an integer. *)
Definition scaled (prec : nat) (m : positive) (e : Z) : Z :=
  match e with
  | Zneg k => round_half_even (Zpos m * 10 ^ Z.of_nat prec) (2 ^ Zpos k)
  | _ => (Zpos m * 2 ^ e * 10 ^ Z.of_nat prec)%Z
  end.

Definition digit (d : Z) : ascii := ascii_of_N (48 + Z.to_N d).

Definition integer_digits (n : Z) : string :=
  NilEmpty.string_of_uint (N.to_uint (Z.to_N n)).

(** The last [prec] decimal digits of [n], with leading zeros. *)
Fixpoint fraction_digits (prec : nat) (n : Z) : string :=
  match prec with
  | O => ""
  | S k => fraction_digits k (n / 10) ++ String (digit (n mod 10)) ""
  end.

(** [n] read as a number with [prec] digits after the point. *)
Definition fixed (prec : nat) (n : Z) : string :=
  integer_digits (n / 10 ^ Z.of_nat prec) ++
  match prec with
  | O => ""
  | S _ => "." ++ fraction_digits prec (n mod 10 ^ Z.of_nat prec)
  end.

Definition sign (s : bool) : string := if s then "-" else "".

(** [strconv.FormatFloat(x, 'f', prec, 64)] as fmt prints it for the verb
    [%.<prec>f] without flags. *)
Definition FormatFloat_f (x : float) (prec : nat) : string :=
  match Prim2SF x with
  | S754_nan => "NaN"
  | S754_infinity false => "+Inf"
  | S754_infinity true => "-Inf"
  | S754_zero s => sign s ++ fixed prec 0
  | S754_finite s m e => sign s ++ fixed prec (scaled prec m e)
  end.

End strconv.

(* ===================================================================== *)
(** ** fmt: Printf and Println *)
(* ===================================================================== *)

Module fmt.

(** The operands main.go passes to fmt. *)
Inductive operand : Type :=
| String_ (s : string)
| Float64 (x : float).

(** Where the scan of a format stands: in plain text, after a [%], or in
    the digits of a precision (after [%.]). *)
Inductive state : Set :=
| Plain
| Verb
| Precision (n : nat).

Definition is_digit (c : ascii) : bool :=
  (48 <=? nat_of_ascii c)%nat && (nat_of_ascii c <=? 57)%nat.

(** The text [Sprintf] builds, for the directives [%s] (a string operand,
    written as it is), [%.<digits>f] (a float64 operand) and [%%]. [None]
    where fmt would print a diagnostic instead: an unknown verb, an
    operand of another type, a missing or an extra operand. *)
Fixpoint render (st : state) (format : string) (a : list operand) : option string :=
  match format with
  | EmptyString =>
      match st, a with
      | Plain, [] => Some ""
      | _, _ => None
      end
  | String c rest =>
      match st with
      | Plain =>
          if Ascii.eqb c "%" then render Verb rest a
          else option_map (String c) (render Plain rest a)
      | Verb =>
          if Ascii.eqb c "%" then option_map (String c) (render Plain rest a)
          else if Ascii.eqb c "s" then
            match a with
            | String_ s :: a' => option_map (append s) (render Plain rest a')
            | _ => None
            end
          else if Ascii.eqb c "." then render (Precision 0) rest a
          else None
      | Precision n =>
          if is_digit c then render (Precision (10 * n + (nat_of_ascii c - 48))) rest a
          else if Ascii.eqb c "f" then
            match a with
            | Float64 x :: a' =>
                option_map (append (strconv.FormatFloat_f x n)) (render Plain rest a')
            | _ => None
            end
          else None
      end
  end.

Definition Sprintf (format : string) (a : list operand) : option string :=
  render Plain format a.

(** [fmt.Printf(format, a...)]; the returned byte count and error are
    dropped at every call of main.go. *)
Definition Printf (format : string) (a : list operand) : Go.run unit :=
  match Sprintf format a with
  | Some s => Go.write s
  | None => Go.outside
  end.

(** Println's text: the operands in their default format, a space between
    any two of them, and a newline. The default format of a string is the
    string itself; that of a float64 (the shortest decimal that reads back)
    is not rendered here. *)
Fixpoint sprintln (a : list operand) : option string :=
  match a with
  | [] => Some (String "010" "")
  | String_ s :: [] => Some (s ++ String "010" "")
  | String_ s :: a' => option_map (fun t => s ++ " " ++ t) (sprintln a')
  | Float64 _ :: _ => None
  end.

Definition Println (a : list operand) : Go.run unit :=
  match sprintln a with
  | Some s => Go.write s
  | None => Go.outside
  end.

End fmt.

(* ===================================================================== *)
(** ** package main *)
(* ===================================================================== *)

Import Go.

(** An interface is the class of the types that have its methods; an
    interface value is built per interface below, where the program has
    one. *)

(** *** Single responsibility: BookPrint *)

Record BookPrint : Type := { Title : string; Author : string }.

Definition BookPrint_PrintDetails (b : BookPrint) : run unit :=
  fmt.Printf (lit "Title: %s, Author: %s\n") [fmt.String_ (Title b); fmt.String_ (Author b)].

(** *** Open/closed: Discount *)

Class Discount (T : Type) : Type := { ApplyDiscount : T -> float -> float }.

Record RegularDiscount : Set := {}.

Definition RegularDiscount_ApplyDiscount (r : RegularDiscount) (price : float) : float :=
  (price * 0.9)%float.

#[export] Instance RegularDiscount_Discount : Discount RegularDiscount :=
  {| ApplyDiscount := RegularDiscount_ApplyDiscount |}.

Record HolidayDiscount : Set := {}.

Definition HolidayDiscount_ApplyDiscount (h : HolidayDiscount) (price : float) : float :=
  (price * 0.8)%float.

#[export] Instance HolidayDiscount_Discount : Discount HolidayDiscount :=
  {| ApplyDiscount := HolidayDiscount_ApplyDiscount |}.

(** *** Liskov substitution: Shape *)

Class Shape (T : Type) : Type := { Area : T -> float }.

Record Square : Set := { Width : float }.

Definition Square_Area (s : Square) : float := (Width s * Width s)%float.

#[export] Instance Square_Shape : Shape Square := {| Area := Square_Area |}.

Record Circle : Set := { Radius : float }.

Definition Circle_Area (c : Circle) : float := (3.14 * Radius c * Radius c)%float.

#[export] Instance Circle_Shape : Shape Circle := {| Area := Circle_Area |}.

(** *** Interface segregation: Printer, Scanner, MultiFunctionDevice *)

Class Printer (T : Type) : Type := { Print : T -> run unit }.

Class Scanner (T : Type) : Type := { Scan : T -> run unit }.

(** The interface that embeds Printer and Scanner: its method set is the
    union of theirs. *)
Class MultiFunctionDevice (T : Type) : Type :=
  { MultiFunctionDevice_Printer :: Printer T;
    MultiFunctionDevice_Scanner :: Scanner T }.

Record MyPrinter : Set := {}.

Definition MyPrinter_Print (p : MyPrinter) : run unit :=
  fmt.Println [fmt.String_ "Printing..."].

#[export] Instance MyPrinter_Printer : Printer MyPrinter := {| Print := MyPrinter_Print |}.

Record MyScanner : Set := {}.

Definition MyScanner_Scan (s : MyScanner) : run unit :=
  fmt.Println [fmt.String_ "Scanning..."].

#[export] Instance MyScanner_Scanner : Scanner MyScanner := {| Scan := MyScanner_Scan |}.

(** A struct with two embedded fields; an embedded field is named after its
    type. *)
Record MyMultiFunctionDevice : Set :=
  { MyMultiFunctionDevice_MyPrinter : MyPrinter;
    MyMultiFunctionDevice_MyScanner : MyScanner }.

(** A method of an embedded field is promoted to the struct: the selector
    [x.m] on the outer struct is [x.field.m]. *)
Definition promoted {Outer Inner R : Type} (field : Outer -> Inner) (m : Inner -> R) : Outer -> R :=
  fun x => m (field x).

Definition MyMultiFunctionDevice_Print : MyMultiFunctionDevice -> run unit :=
  promoted MyMultiFunctionDevice_MyPrinter MyPrinter_Print.

Definition MyMultiFunctionDevice_Scan : MyMultiFunctionDevice -> run unit :=
  promoted MyMultiFunctionDevice_MyScanner MyScanner_Scan.

#[export] Instance MyMultiFunctionDevice_Printer : Printer MyMultiFunctionDevice :=
  {| Print := MyMultiFunctionDevice_Print |}.

#[export] Instance MyMultiFunctionDevice_Scanner : Scanner MyMultiFunctionDevice :=
  {| Scan := MyMultiFunctionDevice_Scan |}.

#[export] Instance MyMultiFunctionDevice_MultiFunctionDevice :
  MultiFunctionDevice MyMultiFunctionDevice :=
  {| MultiFunctionDevice_Printer := MyMultiFunctionDevice_Printer;
     MultiFunctionDevice_Scanner := MyMultiFunctionDevice_Scanner |}.

(** *** Dependency inversion: Storage and DataManager *)

(** The types that have a method [Save(data string)]. *)
Class Storage_methods (T : Type) : Type := { Save : T -> string -> run unit }.

(** A value of the interface type Storage: nil, or a value of a dynamic type
    with that type's methods. *)
Inductive Storage : Type :=
| Storage_nil
| Storage_of (T : Type) (methods : Storage_methods T) (value : T).
Arguments Storage_of {T methods} value.

(** A method call on an interface value dispatches on its dynamic type; on
    the nil interface it panics. *)
Definition Storage_Save (s : Storage) (data : string) : run unit :=
  match s with
  | Storage_nil => raise NilDereference
  | Storage_of value => Save value data
  end.

Record Database : Set := {}.

Definition Database_Save (db : Database) (data : string) : run unit :=
  fmt.Println [fmt.String_ "Saving data to the database:"; fmt.String_ data].

#[export] Instance Database_Storage : Storage_methods Database := {| Save := Database_Save |}.

Record Filesystem : Set := {}.

Definition Filesystem_Save (fs : Filesystem) (data : string) : run unit :=
  fmt.Println [fmt.String_ "Saving data to the filesystem:"; fmt.String_ data].

#[export] Instance Filesystem_Storage : Storage_methods Filesystem := {| Save := Filesystem_Save |}.

Record DataManager : Type := { storage : Storage }.

Definition NewDataManager (storage : Storage) : ptr DataManager :=
  addr {| storage := storage |}.

(** The receiver is a pointer: [dm.storage] dereferences it. *)
Definition DataManager_SaveData (dm : ptr DataManager) (data : string) : run unit :=
  match dm with
  | None => raise NilDereference
  | Some d => Storage_Save (storage d) data
  end.

(** *** main *)

Definition main : run unit :=
  let book := {| Title := "Clean Code"; Author := "Robert C. Martin" |} in
  BookPrint_PrintDetails book ;;

  let discountPrice := 100.0%float in
  let regularDiscount := Build_RegularDiscount in
  fmt.Printf (lit "Regular Price: $%.2f, Discounted Price: $%.2f\n")
    [fmt.Float64 discountPrice;
     fmt.Float64 (RegularDiscount_ApplyDiscount regularDiscount discountPrice)] ;;

  let square := {| Width := 5 |} in
  fmt.Printf (lit "Square Area: %.2f\n") [fmt.Float64 (Square_Area square)] ;;

  let circle := {| Radius := 3 |} in
  fmt.Printf (lit "Circle Area: %.2f\n") [fmt.Float64 (Circle_Area circle)] ;;

  let multiFunctionDevice :=
    {| MyMultiFunctionDevice_MyPrinter := Build_MyPrinter;
       MyMultiFunctionDevice_MyScanner := Build_MyScanner |} in
  MyMultiFunctionDevice_Print multiFunctionDevice ;;
  MyMultiFunctionDevice_Scan multiFunctionDevice ;;

  let db := Build_Database in
  let fs := Build_Filesystem in

  let dataManagerDB := NewDataManager (Storage_of db) in
  let dataManagerFS := NewDataManager (Storage_of fs) in

  DataManager_SaveData dataManagerDB "Data to save with Database storage" ;;
  DataManager_SaveData dataManagerFS "Data to save with Filesystem storage".

(* ===================================================================== *)
(** ** Definitions the statements use *)
(* ===================================================================== *)

(** The mantissa of a shifted record is not negative (the invariant of the
    rounding of a product). *)
Definition shr_nonneg (mrs : shr_record) : Prop := (0 <= shr_m mrs)%Z.

(** A zero, a finite number or an infinity: anything but a NaN. *)
Definition SFnumber (x : spec_float) : bool :=
  match x with S754_nan => false | _ => true end.

(** A finite number other than a zero. *)
Definition SFfinite_nonzero (x : spec_float) : bool :=
  match x with S754_finite _ _ _ => true | _ => false end.

(** A float64 that is not a NaN. *)
Definition number (x : float) : bool := SFnumber (Prim2SF x).

(** The binary64 nearest to pi, which Circle.Area does not use. *)
Definition pi64 : float := 0x1.921fb54442d18p+1%float.

(** A run that returns, and that writes the same bytes when the statement
    is executed a second time. *)
Definition succeeds {A : Type} (c : run A) : Prop := exists a, result c = Returned a.


(** The lines of an output: the text before each newline, and an
    unterminated rest if there is one. *)
Fixpoint lines (s : string) : list string :=
  match s with
  | EmptyString => []
  | String c rest =>
      if Ascii.eqb c "010" then "" :: lines rest
      else match lines rest with
           | [] => [String c ""]
           | l :: ls => String c l :: ls
           end
  end.

(** How many times the byte [c] occurs in [s]. *)
Fixpoint count_byte (c : ascii) (s : string) : nat :=
  match s with
  | EmptyString => 0
  | String d rest => (if Ascii.eqb c d then 1 else 0) + count_byte c rest
  end.

(** The eight lines the specification lists for a run of the program. *)
Definition main_output : string :=
  lit "Title: Clean Code, Author: Robert C. Martin\n" ++
  lit "Regular Price: $100.00, Discounted Price: $90.00\n" ++
  lit "Square Area: 25.00\n" ++
  lit "Circle Area: 28.26\n" ++
  lit "Printing...\n" ++
  lit "Scanning...\n" ++
  lit "Saving data to the database: Data to save with Database storage\n" ++
  lit "Saving data to the filesystem: Data to save with Filesystem storage\n".

(** Follows the specification's words (section 9): the combined device as
    an explicit composition of the two single-method components, each
    exposed through a method that delegates to its component. *)
Record ExplicitMultiFunctionDevice : Set :=
  { printer : MyPrinter; scanner : MyScanner }.

(** The delegating methods of the explicit composition. *)
Definition ExplicitMultiFunctionDevice_Print (d : ExplicitMultiFunctionDevice) : run unit :=
  MyPrinter_Print (printer d).

Definition ExplicitMultiFunctionDevice_Scan (d : ExplicitMultiFunctionDevice) : run unit :=
  MyScanner_Scan (scanner d).

(** The explicit composition with the components of [d]. *)
Definition explicit (d : MyMultiFunctionDevice) : ExplicitMultiFunctionDevice :=
  {| printer := MyMultiFunctionDevice_MyPrinter d;
     scanner := MyMultiFunctionDevice_MyScanner d |}.

(** The zero value [MyMultiFunctionDevice{}]. *)
Definition MyMultiFunctionDevice_zero : MyMultiFunctionDevice :=
  {| MyMultiFunctionDevice_MyPrinter := Build_MyPrinter;
     MyMultiFunctionDevice_MyScanner := Build_MyScanner |}.

(** The statements of main that write, in program order. *)
Definition main_statements : list (run unit) :=
  [ BookPrint_PrintDetails {| Title := "Clean Code"; Author := "Robert C. Martin" |};
    fmt.Printf (lit "Regular Price: $%.2f, Discounted Price: $%.2f\n")
      [fmt.Float64 100.0%float;
       fmt.Float64 (RegularDiscount_ApplyDiscount Build_RegularDiscount 100.0%float)];
    fmt.Printf (lit "Square Area: %.2f\n") [fmt.Float64 (Square_Area {| Width := 5 |})];
    fmt.Printf (lit "Circle Area: %.2f\n") [fmt.Float64 (Circle_Area {| Radius := 3 |})];
    MyMultiFunctionDevice_Print MyMultiFunctionDevice_zero;
    MyMultiFunctionDevice_Scan MyMultiFunctionDevice_zero;
    DataManager_SaveData (NewDataManager (Storage_of Build_Database))
      "Data to save with Database storage";
    DataManager_SaveData (NewDataManager (Storage_of Build_Filesystem))
      "Data to save with Filesystem storage" ].

(** Statements run one after the other. *)
Fixpoint sequence (cs : list (run unit)) : run unit :=
  match cs with
  | [] => ret tt
  | c :: cs' => c ;; sequence cs'
  end.

(** After [k] right shifts of [m0]: the mantissa is the quotient by [2^k],
    and a raised round or sticky bit means the division left a remainder. *)
Definition shr_inv (m0 k : Z) (mrs : shr_record) : Prop :=
  (0 <= k)%Z /\ shr_m mrs = (m0 / 2 ^ k)%Z /\
  (orb (shr_r mrs) (shr_s mrs) = true -> (m0 mod 2 ^ k)%Z <> 0%Z).

Definition SFsigned (s : bool) (x : spec_float) : bool :=
  match x with
  | S754_zero s' | S754_infinity s' | S754_finite s' _ _ => Bool.eqb s s'
  | S754_nan => false
  end.

(** A zero or a finite number: neither an infinity nor a NaN. *)
Definition SFfinite (x : spec_float) : bool :=
  match x with
  | S754_zero _ | S754_finite _ _ _ => true
  | _ => false
  end.

(** A float64 that is neither an infinity nor a NaN. *)
Definition finite (x : float) : bool := SFfinite (Prim2SF x).

(** After [k] right shifts of [m0], exactly: the mantissa is the quotient by
    [2^k], the round bit is the last bit shifted out and the sticky bit
    tells whether a lower bit was set. *)
Definition shr_exact (m0 k : Z) (mrs : shr_record) : Prop :=
  (0 <= k)%Z /\ shr_m mrs = (m0 / 2 ^ k)%Z /\
  shr_r mrs = ((0 <? k)%Z && Z.odd (m0 / 2 ^ (k - 1))) /\
  shr_s mrs = ((0 <? k)%Z && negb (m0 mod 2 ^ (k - 1) =? 0)%Z).

(** What the rounding of a positive product returns for the mantissa [r]
    and the exponent [e] it arrives at. *)
Definition round_result (r e : Z) : spec_float :=
  match r with
  | Z0 => S754_zero false
  | Zpos q => if (e <=? emax - prec)%Z then S754_finite false q e else S754_infinity false
  | Zneg _ => S754_nan
  end.

(** The binary64 rounding of [M * 2^E], written out: the shift [n] that
    leaves at most 53 bits (or reaches the smallest exponent), the quotient
    rounded to nearest-even, and one more shift [n2] when the rounding
    carried into a 54th bit. *)
Definition SFround (M E : Z) : spec_float :=
  let n := Z.max 0 (fexp prec emax (Zdigits2 M + E) - E) in
  let q := strconv.round_half_even M (2 ^ n) in
  let n2 := Z.max 0 (fexp prec emax (Zdigits2 q + (E + n)) - (E + n)) in
  round_result (q / 2 ^ n2) (E + n + n2).

(* ===================================================================== *)
(** ** Rendering of floats: samples *)
(* ===================================================================== *)

Example FormatFloat_f_samples :
  strconv.FormatFloat_f 90 2 = "90.00" /\
  strconv.FormatFloat_f 0.125 2 = "0.12" /\
  strconv.FormatFloat_f 0.375 2 = "0.38" /\
  strconv.FormatFloat_f 2.675 2 = "2.67" /\
  strconv.FormatFloat_f (-0.001) 2 = "-0.00" /\
  strconv.FormatFloat_f 1e21 1 = "1000000000000000000000.0" /\
  strconv.FormatFloat_f 0.5 0 = "0" /\
  strconv.FormatFloat_f 1.5 0 = "2" /\
  strconv.FormatFloat_f infinity 2 = "+Inf".
Proof. repeat split; vm_compute; reflexivity. Qed.

(* ===================================================================== *)
(** ** float64 multiplication *)
(* ===================================================================== *)

(** Facts about binary64 multiplication that the claims on prices and areas
    rest on: the product does not depend on the order of its factors, and
    the product of two numbers is a number unless one is a zero and the
    other an infinity. *)
Section Float64.

Local Open Scope Z_scope.

Variables prec emax : Z.

Lemma shr_1_nonneg mrs : shr_nonneg mrs -> shr_nonneg (shr_1 mrs).
Proof.
  destruct mrs as [m r s]; unfold shr_nonneg; simpl.
  destruct m as [|[p|p|]|[p|p|]]; simpl; lia.
Qed.

Lemma iter_pos_invariant {A : Type} (P : A -> Prop) (f : A -> A) :
  (forall a, P a -> P (f a)) -> forall n a, P a -> P (iter_pos f n a).
Proof.
  intros Hf n; induction n as [n IH|n IH|]; intros a Ha; simpl; auto.
Qed.

Lemma shr_nonneg_preserved mrs e n : shr_nonneg mrs -> shr_nonneg (fst (shr mrs e n)).
Proof.
  intros H; unfold shr; destruct n; simpl; trivial.
  apply iter_pos_invariant; auto using shr_1_nonneg.
Qed.

Lemma shr_fexp_nonneg m e l :
  0 <= m -> shr_nonneg (fst (shr_fexp prec emax m e l)).
Proof.
  intros H; unfold shr_fexp; apply shr_nonneg_preserved.
  unfold shr_nonneg; destruct l as [|[| |]]; simpl; exact H.
Qed.

Lemma round_nearest_even_nonneg m l : 0 <= m -> 0 <= round_nearest_even m l.
Proof.
  intros H; destruct l as [|[| |]]; simpl; try lia.
  destruct (Z.even m); lia.
Qed.

(** Rounding a positive mantissa gives a zero, a finite number or an
    infinity. *)
Lemma binary_round_aux_number sx m ex :
  binary_round_aux prec emax sx (Zpos m) ex loc_Exact <> S754_nan.
Proof.
  unfold binary_round_aux.
  pose proof (shr_fexp_nonneg (Zpos m) ex loc_Exact ltac:(lia)) as H1.
  destruct (shr_fexp prec emax (Zpos m) ex loc_Exact) as [mrs' e'].
  simpl in H1.
  pose proof (shr_fexp_nonneg
    (round_nearest_even (shr_m mrs') (loc_of_shr_record mrs')) e' loc_Exact
    (round_nearest_even_nonneg _ _ H1)) as H2.
  destruct (shr_fexp prec emax _ e' loc_Exact) as [mrs'' e''].
  simpl in H2. unfold shr_nonneg in H2.
  destruct (shr_m mrs'') as [|q|q]; try discriminate.
  - destruct (e'' <=? emax - prec); discriminate.
  - lia.
Qed.

Lemma SFmul_comm x y : SFmul prec emax x y = SFmul prec emax y x.
Proof.
  destruct x as [sx|sx| |sx mx ex], y as [sy|sy| |sy my ey]; simpl;
    try reflexivity; try (rewrite (xorb_comm sx sy); reflexivity).
  rewrite (xorb_comm sx sy), (Pos.mul_comm mx my), (Z.add_comm ex ey).
  reflexivity.
Qed.

Lemma SFmul_number_finite x y :
  SFnumber x = true -> SFfinite_nonzero y = true ->
  SFnumber (SFmul prec emax x y) = true.
Proof.
  destruct x as [sx|sx| |sx mx ex], y as [sy|sy| |sy my ey]; simpl;
    try discriminate; try reflexivity.
  intros _ _.
  pose proof (binary_round_aux_number (xorb sx sy) (mx * my) (ex + ey)) as H.
  destruct (binary_round_aux _ _ _ _ _ _); simpl; congruence.
Qed.

Lemma SFeqb_refl x : SFnumber x = true -> SFeqb x x = true.
Proof.
  destruct x as [s|s| |s m e]; simpl; try discriminate; intros _;
    unfold SFeqb; simpl; try reflexivity.
  - destruct s; reflexivity.
  - rewrite Z.compare_refl, Pos.compare_cont_refl. destruct s; reflexivity.
Qed.

End Float64.

Local Open Scope float_scope.

Lemma mul_comm (x y : float) : x * y = y * x.
Proof.
  apply Prim2SF_inj. rewrite !mul_spec. apply SFmul_comm.
Qed.

(** Go's [x == x] holds of every float64 but NaN. *)
Lemma eqb_refl (x : float) : number x = true -> (x =? x) = true.
Proof.
  intros H. rewrite eqb_spec. apply SFeqb_refl. exact H.
Qed.

(** What [0 <= x] leaves: a zero, a positive finite number or [+Inf]. *)
Lemma nonneg_cases (x : float) :
  (0 <=? x) = true ->
  (exists s, Prim2SF x = S754_zero s) \/
  (exists m e, Prim2SF x = S754_finite false m e) \/
  Prim2SF x = S754_infinity false.
Proof.
  rewrite leb_spec. change (Prim2SF 0) with (S754_zero false).
  destruct (Prim2SF x) as [s|s| |s m e]; unfold SFleb; simpl; try discriminate.
  - intros _. left. exists s. reflexivity.
  - destruct s; try discriminate. intros _. right. right. reflexivity.
  - destruct s; try discriminate. intros _. right. left. exists m, e. reflexivity.
Qed.

Lemma nonneg_number (x : float) : (0 <=? x) = true -> number x = true.
Proof.
  intros H. unfold number.
  destruct (nonneg_cases x H) as [[s E]|[[m [e E]]|E]]; rewrite E; reflexivity.
Qed.

(** The product of a number and a finite non-zero number is a number. *)
Lemma mul_number_finite (x y : float) :
  number x = true -> SFfinite_nonzero (Prim2SF y) = true -> number (x * y) = true.
Proof.
  intros Hx Hy. unfold number. rewrite mul_spec. apply SFmul_number_finite; assumption.
Qed.

(** For [x >= 0] and a positive finite constant [c], [x * c] is a number. *)
Lemma mul_nonneg_constant_number (x c : float) :
  (0 <=? x) = true -> SFfinite_nonzero (Prim2SF c) = true -> number (x * c) = true.
Proof.
  intros Hx Hc. apply mul_number_finite; [apply nonneg_number, Hx | exact Hc].
Qed.

(** For [x >= 0], [x * x] is a number. *)
Lemma square_number (x : float) : (0 <=? x) = true -> number (x * x) = true.
Proof.
  intros H. destruct (nonneg_cases x H) as [[s E]|[[m [e E]]|E]].
  - unfold number. rewrite mul_spec, E. reflexivity.
  - apply mul_number_finite; [apply nonneg_number, H | rewrite E; reflexivity].
  - unfold number. rewrite mul_spec, E. reflexivity.
Qed.

(** For [x >= 0] and a positive finite constant [c], [c * x * x] is a
    number. *)
Lemma scaled_square_number (c x : float) :
  (exists m e, Prim2SF c = S754_finite false m e) ->
  (0 <=? x) = true -> number (c * x * x) = true.
Proof.
  intros [mc [ec Ec]] H. destruct (nonneg_cases x H) as [[s E]|[[m [e E]]|E]].
  - unfold number. rewrite !mul_spec, E, Ec. reflexivity.
  - apply mul_number_finite; [| rewrite E; reflexivity].
    apply mul_number_finite; [| rewrite E; reflexivity].
    unfold number. rewrite Ec. reflexivity.
  - unfold number. rewrite !mul_spec, E, Ec. reflexivity.
Qed.

(* ===================================================================== *)
(** ** Prices and areas *)
(* ===================================================================== *)

(** The values of the source's decimal constants: each is the binary64
    nearest to the decimal written, not the decimal itself. *)
Lemma constants :
  Prim2SF 0.9 = S754_finite false 8106479329266893 (-53) /\
  Prim2SF 0.8 = S754_finite false 7205759403792794 (-53) /\
  Prim2SF 3.14 = S754_finite false 7070651414971679 (-51).
Proof. repeat split; vm_compute; reflexivity. Qed.

(** C1. For every price p >= 0, the regular discount returns 0.9 * p and
    the holiday discount returns 0.8 * p, as float64 products: the value is
    the exact product of p and the constant rounded once to the nearest
    binary64 (SF64mul), it is the same float64 whichever factor is written
    first, and Go's == holds between the two. Applying the regular discount
    to 100.0 and printing with the program's format writes the line
    [Regular Price: $100.00, Discounted Price: $90.00]: that Printf is the
    second statement of main, and the line is the second line main writes. *)
Theorem C1_discounts (p : float) (Hp : (0 <=? p) = true) :
  (ApplyDiscount Build_RegularDiscount p = 0.9 * p /\
   (ApplyDiscount Build_RegularDiscount p =? 0.9 * p) = true /\
   Prim2SF (ApplyDiscount Build_RegularDiscount p) = SF64mul (Prim2SF 0.9) (Prim2SF p)) /\
  (ApplyDiscount Build_HolidayDiscount p = 0.8 * p /\
   (ApplyDiscount Build_HolidayDiscount p =? 0.8 * p) = true /\
   Prim2SF (ApplyDiscount Build_HolidayDiscount p) = SF64mul (Prim2SF 0.8) (Prim2SF p)) /\
  fmt.Printf (lit "Regular Price: $%.2f, Discounted Price: $%.2f\n")
    [fmt.Float64 100.0; fmt.Float64 (ApplyDiscount Build_RegularDiscount 100.0)] =
  write (lit "Regular Price: $100.00, Discounted Price: $90.00\n") /\
  nth_error main_statements 1 =
    Some (fmt.Printf (lit "Regular Price: $%.2f, Discounted Price: $%.2f\n")
            [fmt.Float64 100.0; fmt.Float64 (ApplyDiscount Build_RegularDiscount 100.0)]) /\
  main = sequence main_statements /\
  nth_error (lines (stdout main)) 1 =
    Some "Regular Price: $100.00, Discounted Price: $90.00".
Proof.
  destruct constants as (E9 & E8 & _).
  simpl ApplyDiscount.
  unfold RegularDiscount_ApplyDiscount, HolidayDiscount_ApplyDiscount.
  split; [|split; [|repeat split; vm_compute; reflexivity]].
  - split; [apply mul_comm|split].
    + rewrite <- (mul_comm p 0.9). apply eqb_refl.
      apply mul_nonneg_constant_number; [exact Hp | rewrite E9; reflexivity].
    + rewrite (mul_comm p 0.9). apply mul_spec.
  - split; [apply mul_comm|split].
    + rewrite <- (mul_comm p 0.8). apply eqb_refl.
      apply mul_nonneg_constant_number; [exact Hp | rewrite E8; reflexivity].
    + rewrite (mul_comm p 0.8). apply mul_spec.
Qed.

Lemma C1_discounts_witness :
  (0 <=? 100.0) = true /\
  ApplyDiscount Build_RegularDiscount 100.0 = 0.9 * 100.0 /\
  ApplyDiscount Build_HolidayDiscount 100.0 = 0.8 * 100.0.
Proof.
  split; [reflexivity|].
  pose proof (C1_discounts 100.0 eq_refl) as H.
  split; [exact (proj1 (proj1 H)) | exact (proj1 (proj1 (proj2 H)))].
Defined.

(** C2. For every width w >= 0, Square{w}.Area() is the float64 product
    w * w, and for every radius r >= 0, Circle{r}.Area() is 3.14 * r * r
    (the products taken left to right); Go's == holds in both. The constant
    is the binary64 of the decimal 3.14 and not that of pi: a square of
    width 5 prints as 25.00 and a circle of radius 3 as 28.26, where pi
    would give 28.27. *)
Theorem C2_areas (w r : float) (Hw : (0 <=? w) = true) (Hr : (0 <=? r) = true) :
  (Area {| Width := w |} = w * w /\ (Area {| Width := w |} =? w * w) = true) /\
  (Area {| Radius := r |} = 3.14 * r * r /\
   (Area {| Radius := r |} =? 3.14 * r * r) = true) /\
  strconv.FormatFloat_f (Area {| Width := 5 |}) 2 = "25.00" /\
  strconv.FormatFloat_f (Area {| Radius := 3 |}) 2 = "28.26" /\
  (3.14 =? pi64) = false /\
  strconv.FormatFloat_f (pi64 * 3 * 3) 2 = "28.27".
Proof.
  destruct constants as (_ & _ & E).
  simpl Area. unfold Square_Area, Circle_Area. simpl Width. simpl Radius.
  repeat split; try (vm_compute; reflexivity).
  - apply eqb_refl, square_number, Hw.
  - apply eqb_refl, scaled_square_number; [eauto | exact Hr].
Qed.

Lemma C2_areas_witness :
  (0 <=? 5) = true /\ (0 <=? 3) = true /\
  Area {| Width := 5 |} = 5 * 5 /\ Area {| Radius := 3 |} = 3.14 * 3 * 3.
Proof.
  split; [reflexivity|]. split; [reflexivity|].
  pose proof (C2_areas 5 3 eq_refl eq_refl) as H.
  split; [exact (proj1 (proj1 H)) | exact (proj1 (proj1 (proj2 H)))].
Defined.

(* ===================================================================== *)
(** ** What each method writes *)
(* ===================================================================== *)

Local Close Scope float_scope.
Local Open Scope string_scope.


Lemma raise_fails {A : Type} (p : panic) : ~ succeeds (@raise A p).
Proof. intros [a H]. discriminate H. Qed.

Lemma count_byte_app (c : ascii) (s t : string) :
  count_byte c (s ++ t) = count_byte c s + count_byte c t.
Proof.
  induction s as [|d s IH]; simpl; [reflexivity|]. rewrite IH. lia.
Qed.

Lemma append_assoc (s t u : string) : (s ++ t) ++ u = s ++ (t ++ u).
Proof.
  induction s as [|c s IH]; simpl; [reflexivity|]. rewrite IH. reflexivity.
Qed.

Lemma BookPrint_PrintDetails_writes (b : BookPrint) :
  BookPrint_PrintDetails b =
  write ("Title: " ++ Title b ++ ", Author: " ++ Author b ++ lit "\n").
Proof. reflexivity. Qed.



Lemma Database_Save_writes (db : Database) (data : string) :
  Database_Save db data = write ("Saving data to the database: " ++ data ++ lit "\n").
Proof. reflexivity. Qed.

Lemma Filesystem_Save_writes (fs : Filesystem) (data : string) :
  Filesystem_Save fs data = write ("Saving data to the filesystem: " ++ data ++ lit "\n").
Proof. reflexivity. Qed.

(** The manager forwards to the method of the dynamic type it holds. *)
Lemma DataManager_SaveData_forwards (T : Type) (M : Storage_methods T) (v : T) (data : string) :
  DataManager_SaveData (NewDataManager (Storage_of v)) data = Save v data.
Proof. reflexivity. Qed.

Lemma DataManager_SaveData_nil_storage (data : string) :
  DataManager_SaveData (NewDataManager Storage_nil) data = raise NilDereference.
Proof. reflexivity. Qed.

(** The two labels part at their first byte, so no data makes the two lines
    equal. *)
Lemma save_lines_differ (x y : string) :
  write ("Saving data to the database: " ++ x) <> write ("Saving data to the filesystem: " ++ y).
Proof. intros H. cbv in H. discriminate H. Qed.

Lemma main_writes : main = write main_output.
Proof. vm_compute. reflexivity. Qed.

(* ===================================================================== *)
(** ** The record printer *)
(* ===================================================================== *)

(* ===================================================================== *)
(** ** The capabilities *)
(* ===================================================================== *)

(** C8. MyPrinter.Print writes exactly [Printing...] and MyScanner.Scan
    exactly [Scanning...]. MyMultiFunctionDevice has the methods of the
    union interface by embedding the two: its Print is that of its MyPrinter
    field and its Scan that of its MyScanner field, and a call through the
    union interface runs the same method as a call through Printer or
    Scanner alone. *)
Theorem C8_capabilities (p : MyPrinter) (s : MyScanner) (d : MyMultiFunctionDevice) :
  Print p = write (lit "Printing...\n") /\
  Scan s = write (lit "Scanning...\n") /\
  Print d = Print (MyMultiFunctionDevice_MyPrinter d) /\
  Scan d = Scan (MyMultiFunctionDevice_MyScanner d) /\
  @Print _ (@MultiFunctionDevice_Printer _ MyMultiFunctionDevice_MultiFunctionDevice) d =
    @Print _ MyMultiFunctionDevice_Printer d /\
  @Scan _ (@MultiFunctionDevice_Scanner _ MyMultiFunctionDevice_MultiFunctionDevice) d =
    @Scan _ MyMultiFunctionDevice_Scanner d /\
  @Print _ (@MultiFunctionDevice_Printer _ MyMultiFunctionDevice_MultiFunctionDevice) d =
    write (lit "Printing...\n") /\
  @Scan _ (@MultiFunctionDevice_Scanner _ MyMultiFunctionDevice_MultiFunctionDevice) d =
    write (lit "Scanning...\n").
Proof.
  repeat split.
Qed.

(** C10. The promoted methods behave as explicit delegation:
    MyMultiFunctionDevice{}.Print() is the same run as MyPrinter{}.Print()
    and MyMultiFunctionDevice{}.Scan() the same as MyScanner{}.Scan(), and
    on every value the promoted method is the run of the delegating method
    of the explicit composition. *)
Theorem C10_promotion_is_delegation :
  MyMultiFunctionDevice_Print MyMultiFunctionDevice_zero = MyPrinter_Print Build_MyPrinter /\
  MyMultiFunctionDevice_Scan MyMultiFunctionDevice_zero = MyScanner_Scan Build_MyScanner /\
  (forall d, MyMultiFunctionDevice_Print d = ExplicitMultiFunctionDevice_Print (explicit d)) /\
  (forall d, MyMultiFunctionDevice_Scan d = ExplicitMultiFunctionDevice_Scan (explicit d)) /\
  (forall d, d = MyMultiFunctionDevice_zero).
Proof.
  repeat split.
  intros [[] []]. reflexivity.
Qed.

(* ===================================================================== *)
(** ** Storage and its manager *)
(* ===================================================================== *)

(** C5. The two Save methods write the same line but for the label: for
    every data, Database.Save writes exactly
    [Saving data to the database: <data>] and Filesystem.Save exactly
    [Saving data to the filesystem: <data>], each with its newline, and the
    two outputs differ. Saving "X" through the manager bound to a
    Filesystem writes exactly [Saving data to the filesystem: X], which is
    not the database line. *)
Theorem C5_save_lines (data : string) :
  (forall label,
     fmt.Println [fmt.String_ ("Saving data to the " ++ label ++ ":"); fmt.String_ data] =
     write ("Saving data to the " ++ label ++ ": " ++ data ++ lit "\n")) /\
  Database_Save Build_Database data =
    write ("Saving data to the " ++ "database" ++ ": " ++ data ++ lit "\n") /\
  Filesystem_Save Build_Filesystem data =
    write ("Saving data to the " ++ "filesystem" ++ ": " ++ data ++ lit "\n") /\
  Database_Save Build_Database data <> Filesystem_Save Build_Filesystem data /\
  DataManager_SaveData (NewDataManager (Storage_of Build_Filesystem)) "X" =
    write (lit "Saving data to the filesystem: X\n") /\
  DataManager_SaveData (NewDataManager (Storage_of Build_Filesystem)) "X" <>
    write (lit "Saving data to the database: X\n") /\
  lines (stdout (DataManager_SaveData (NewDataManager (Storage_of Build_Filesystem)) "X")) =
    ["Saving data to the filesystem: X"].
Proof.
  split.
  { intros label. unfold fmt.Println, fmt.sprintln, option_map. f_equal.
    rewrite !append_assoc. reflexivity. }
  split; [apply Database_Save_writes|].
  split; [apply Filesystem_Save_writes|].
  split.
  { rewrite Database_Save_writes, Filesystem_Save_writes.
    exact (save_lines_differ _ _). }
  split; [reflexivity|].
  split; [|reflexivity].
  intros H. apply (save_lines_differ (lit "X\n") (lit "X\n")). symmetry. exact H.
Qed.

(** C3. A manager calls the Save of the storage it was built with and
    nothing else: for every type with a Save method and every value of it,
    SaveData on the manager built from that value is the run of that
    value's Save on the same string. So the Database manager runs
    Database.Save and never Filesystem.Save, the Filesystem manager the
    other way round, for every string; DataManager's code is the same in
    both. *)
Theorem C3_manager_calls_bound_storage :
  (forall (T : Type) (M : Storage_methods T) (v : T) (x : string),
     DataManager_SaveData (NewDataManager (Storage_of v)) x = Save v x) /\
  (forall x,
     DataManager_SaveData (NewDataManager (Storage_of Build_Database)) x =
       Database_Save Build_Database x /\
     DataManager_SaveData (NewDataManager (Storage_of Build_Database)) x <>
       Filesystem_Save Build_Filesystem x) /\
  (forall x,
     DataManager_SaveData (NewDataManager (Storage_of Build_Filesystem)) x =
       Filesystem_Save Build_Filesystem x /\
     DataManager_SaveData (NewDataManager (Storage_of Build_Filesystem)) x <>
       Database_Save Build_Database x).
Proof.
  split; [exact DataManager_SaveData_forwards|].
  split; intros x; rewrite DataManager_SaveData_forwards; simpl Save;
    (split; [reflexivity|]);
    rewrite Database_Save_writes, Filesystem_Save_writes; intros H.
  - exact (save_lines_differ _ _ H).
  - exact (save_lines_differ _ _ (eq_sym H)).
Qed.

(** C9. NewDataManager does not check its argument: given the nil Storage
    it returns a manager (a non-nil pointer) whose storage is nil, and
    SaveData on that manager panics with a nil dereference, for every
    string, having written nothing. *)
Theorem C9_nil_storage_panics :
  NewDataManager Storage_nil = addr {| storage := Storage_nil |} /\
  NewDataManager Storage_nil <> nil /\
  (forall data,
     DataManager_SaveData (NewDataManager Storage_nil) data =
       {| stdout := ""; result := Panicked NilDereference |}) /\
  (forall data, ~ succeeds (DataManager_SaveData (NewDataManager Storage_nil) data)).
Proof.
  split; [reflexivity|]. split; [discriminate|]. split; [reflexivity|].
  intros data. rewrite DataManager_SaveData_nil_storage. apply raise_fails.
Qed.

(* ===================================================================== *)
(** ** The entry point *)
(* ===================================================================== *)

(** In a sequence whose statements all return, the output is the outputs of
    the statements one after the other. *)
Lemma sequence_stdout (cs : list (run unit)) :
  Forall succeeds cs ->
  succeeds (sequence cs) /\ stdout (sequence cs) = String.concat "" (map stdout cs).
Proof.
  induction 1 as [|c cs [[] Hc] _ [[[] IHr] IHo]]; simpl.
  - split; [exists tt|]; reflexivity.
  - unfold bind. rewrite Hc. simpl. split; [exists tt; exact IHr|].
    rewrite IHo. destruct cs as [|c' cs]; simpl; [|reflexivity].
    clear. induction (stdout c) as [|a s IH]; simpl; [reflexivity|].
    rewrite IH. reflexivity.
Qed.

(** A statement that panics ends the sequence: what follows it does not
    run, and the output stops with what was written before the panic. *)
Lemma bind_panicked {A B : Type} (c : run A) (k : A -> run B) (p : panic) :
  result c = Panicked p -> (x <- c ;; k x) = {| stdout := stdout c; result := Panicked p |}.
Proof. intros H. unfold bind. rewrite H. reflexivity. Qed.

(** C7. main runs its statements one after the other, each returning
    before the next starts, and returns; its standard output is exactly the
    eight lines, in this order: the record line, the discount line, the
    square-area line, the circle-area line, [Printing...], [Scanning...],
    the database save line, the filesystem save line. The output is the
    outputs of the eight statements in program order. *)
Theorem C7_main_output :
  main = write main_output /\
  lines (stdout main) =
    [ "Title: Clean Code, Author: Robert C. Martin";
      "Regular Price: $100.00, Discounted Price: $90.00";
      "Square Area: 25.00";
      "Circle Area: 28.26";
      "Printing...";
      "Scanning...";
      "Saving data to the database: Data to save with Database storage";
      "Saving data to the filesystem: Data to save with Filesystem storage" ] /\
  main = sequence main_statements /\
  Forall succeeds main_statements /\
  stdout main = String.concat "" (map stdout main_statements).
Proof.
  assert (Hall : Forall succeeds main_statements).
  { repeat constructor; exists tt; vm_compute; reflexivity. }
  assert (Hseq : main = sequence main_statements) by (vm_compute; reflexivity).
  split; [exact main_writes|].
  split; [vm_compute; reflexivity|].
  split; [exact Hseq|].
  split; [exact Hall|].
  rewrite Hseq. exact (proj2 (sequence_stdout _ Hall)).
Qed.

(* ===================================================================== *)
(** ** Failure and determinism *)
(* ===================================================================== *)




(* ===================================================================== *)
(** ** Rounding of a product: an upper bound *)
(* ===================================================================== *)

Section Rounding.
Local Open Scope Z_scope.

Lemma digits2_pos_bounds (p : positive) :
  2 ^ (Zpos (digits2_pos p) - 1) <= Zpos p < 2 ^ Zpos (digits2_pos p).
Proof.
  induction p as [p IH|p IH|]; simpl digits2_pos.
  - rewrite Pos2Z.inj_succ.
    replace (Z.succ (Zpos (digits2_pos p)) - 1) with (Z.succ (Zpos (digits2_pos p) - 1)) by lia.
    rewrite !Z.pow_succ_r by lia. lia.
  - rewrite Pos2Z.inj_succ.
    replace (Z.succ (Zpos (digits2_pos p)) - 1) with (Z.succ (Zpos (digits2_pos p) - 1)) by lia.
    rewrite !Z.pow_succ_r by lia. lia.
  - simpl. lia.
Qed.

Lemma shr_inv_init (m0 : Z) : shr_inv m0 0 (shr_record_of_loc m0 loc_Exact).
Proof.
  unfold shr_inv; simpl. repeat split; [lia | rewrite Z.div_1_r; reflexivity | discriminate].
Qed.

Lemma mod_pow2_succ (m0 k : Z) :
  0 <= k -> m0 mod 2 ^ (k + 1) = 0 ->
  m0 mod 2 ^ k = 0 /\ Z.even (m0 / 2 ^ k) = true.
Proof.
  intros Hk H.
  assert (Hpow : 0 < 2 ^ k) by (apply Z.pow_pos_nonneg; lia).
  apply Z.mod_divide in H; [|rewrite Z.pow_add_r by lia; lia].
  destruct H as [c Hc]. rewrite Z.pow_add_r, Z.pow_1_r in Hc by lia.
  replace (c * (2 ^ k * 2)) with (2 * c * 2 ^ k) in Hc by lia. subst m0.
  split; [apply Z.mod_mul; lia|].
  rewrite Z.div_mul by lia. rewrite Z.even_mul. reflexivity.
Qed.

Lemma shr_1_inv (m0 k : Z) (mrs : shr_record) :
  0 <= m0 -> shr_inv m0 k mrs -> shr_inv m0 (k + 1) (shr_1 mrs).
Proof.
  intros Hm0 (Hk & Hm & Hrs).
  assert (Hpow : 0 < 2 ^ k) by (apply Z.pow_pos_nonneg; lia).
  assert (Hq : 0 <= m0 / 2 ^ k) by (apply Z.div_pos; lia).
  assert (Hdiv : m0 / 2 ^ (k + 1) = m0 / 2 ^ k / 2).
  { rewrite Z.pow_add_r, Z.pow_1_r, Z.div_div by lia. reflexivity. }
  destruct mrs as [m r s]. simpl in Hm, Hrs.
  unfold shr_inv. split; [lia|].
  rewrite Hdiv, <- Hm. rewrite <- Hm in Hq.
  split.
  - destruct m as [|[p|p|]|[p|p|]]; simpl; try lia; try reflexivity.
    + rewrite Pos2Z.inj_xI. apply Z.div_unique with 1; lia.
    + rewrite Pos2Z.inj_xO. apply Z.div_unique with 0; lia.
  - intros Hflag H0. apply mod_pow2_succ in H0 as [Ha Hb]; [|exact Hk].
    rewrite <- Hm in Hb.
    destruct m as [|[p|p|]|[p|p|]]; simpl in Hflag, Hb; try discriminate Hb; try lia;
      apply (Hrs Hflag Ha).
Qed.

Lemma iter_shr_1_inv (m0 : Z) (p : positive) :
  0 <= m0 -> forall k mrs, shr_inv m0 k mrs -> shr_inv m0 (k + Zpos p) (iter_pos shr_1 p mrs).
Proof.
  intros Hm0. induction p as [p IH|p IH|]; intros k mrs H; simpl.
  - replace (k + Zpos p~1) with (k + 1 + Zpos p + Zpos p) by lia.
    apply IH, IH, shr_1_inv; assumption.
  - replace (k + Zpos p~0) with (k + Zpos p + Zpos p) by lia.
    apply IH, IH; assumption.
  - apply shr_1_inv; assumption.
Qed.

Lemma shr_inv_shr (m0 e n : Z) :
  0 <= m0 ->
  shr_inv m0 (Z.max 0 n) (fst (shr (shr_record_of_loc m0 loc_Exact) e n)) /\
  snd (shr (shr_record_of_loc m0 loc_Exact) e n) = e + Z.max 0 n.
Proof.
  intros Hm0. unfold shr. destruct n as [|p|p]; simpl fst; simpl snd.
  - split; [apply shr_inv_init | simpl; lia].
  - rewrite Z.max_r by lia. split; [|reflexivity].
    apply (iter_shr_1_inv m0 p Hm0 0), shr_inv_init.
  - rewrite Z.max_l by lia. split; [apply shr_inv_init | lia].
Qed.

(** Rounding to nearest never passes an integer bound of the quotient. *)
Lemma round_nearest_even_le (m0 k K : Z) (mrs : shr_record) :
  0 <= m0 -> shr_inv m0 k mrs -> m0 <= K * 2 ^ k ->
  0 <= round_nearest_even (shr_m mrs) (loc_of_shr_record mrs) <= K /\
  round_nearest_even (shr_m mrs) (loc_of_shr_record mrs) <= m0 / 2 ^ k + 1.
Proof.
  intros Hm0 (Hk & Hm & Hrs) HK.
  assert (Hpow : 0 < 2 ^ k) by (apply Z.pow_pos_nonneg; lia).
  assert (Hq : 0 <= m0 / 2 ^ k) by (apply Z.div_pos; lia).
  pose proof (Z.div_mod m0 (2 ^ k) ltac:(lia)) as E1.
  pose proof (Z.mod_pos_bound m0 (2 ^ k) Hpow) as B1.
  destruct mrs as [m r s]. simpl in *. subst m.
  assert (Hfloor : m0 / 2 ^ k <= K) by nia.
  destruct r, s; simpl.
  - specialize (Hrs eq_refl). split; [split|]; nia.
  - specialize (Hrs eq_refl). destruct (Z.even (m0 / 2 ^ k)); split; try split; nia.
  - split; [split|]; lia.
  - split; [split|]; lia.
Qed.

End Rounding.

Section Product.
Local Open Scope Z_scope.

Lemma valid_finite_bounds (s : bool) (m : positive) (e : Z) :
  valid_binary (S754_finite s m e) = true ->
  Zpos (digits2_pos m) <= 53 /\ -1074 <= e <= 971.
Proof.
  unfold SpecFloat.valid_binary, bounded, canonical_mantissa, fexp, SpecFloat.emin, prec, emax.
  intros H. apply andb_prop in H as [H1 H2].
  apply Z.eqb_eq in H1. apply Z.leb_le in H2. lia.
Qed.

Lemma pow2_lt_exponent (a b : Z) : 0 <= b -> 2 ^ a < 2 ^ b -> a < b.
Proof.
  intros Hb H. destruct (Z_lt_le_dec a b) as [Hlt|Hle]; [exact Hlt|].
  pose proof (Z.pow_le_mono_r 2 b a ltac:(lia) Hle). lia.
Qed.

(** The product of a positive finite number and a positive finite factor
    that is at most one, rounded, is at most the number. *)
Lemma SFmul_factor_le (m mc : positive) (e ec : Z) :
  valid_binary (S754_finite false m e) = true ->
  ec <= 0 -> Zpos mc <= 2 ^ (- ec) ->
  SFleb (SFmul prec emax (S754_finite false m e) (S754_finite false mc ec))
        (S754_finite false m e) = true.
Proof.
  intros Hvalid Hec Hmc.
  destruct (valid_finite_bounds _ _ _ Hvalid) as (Hdm & Hemin & Hemax).
  pose proof (digits2_pos_bounds m) as Bm.
  pose proof (digits2_pos_bounds (m * mc)) as BM.
  set (k := - ec) in *.
  assert (Hk : 0 <= k) by (unfold k; lia).
  assert (Hpk : 0 < 2 ^ k) by (apply Z.pow_pos_nonneg; lia).
  set (dm := Zpos (digits2_pos m)) in *.
  set (dM := Zpos (digits2_pos (m * mc))) in *.
  set (M := Zpos (m * mc)) in *.
  assert (HM : M <= Zpos m * 2 ^ k).
  { unfold M. rewrite Pos2Z.inj_mul. apply Z.mul_le_mono_nonneg_l; lia. }
  assert (HdM : dM <= 53 + k).
  { assert (Hlt : 2 ^ (dM - 1) < 2 ^ (dm + k)).
    { rewrite (Z.pow_add_r 2 dm k) by (unfold dm; lia). nia. }
    apply pow2_lt_exponent in Hlt; unfold dm in *; lia. }
  simpl SFmul.
  unfold binary_round_aux, shr_fexp.
  change (Zdigits2 (Zpos (m * mc))) with dM. fold M.
  set (ex := e + ec).
  set (n1 := fexp prec emax (dM + ex) - ex).
  destruct (shr_inv_shr M ex n1 ltac:(unfold M; lia)) as [Hinv1 He1].
  destruct (shr (shr_record_of_loc M loc_Exact) ex n1) as [mrs1 e1].
  simpl fst in Hinv1. simpl snd in He1.
  set (n1' := Z.max 0 n1) in *.
  assert (Hn1 : 0 <= n1' /\ dM - 53 <= n1' /\ -1074 - ex <= n1' /\ n1' <= k).
  { unfold n1', n1, fexp, SpecFloat.emin, prec, emax, ex, k in *. lia. }
  destruct Hn1 as (Hn1a & Hn1b & Hn1c & Hn1d).
  assert (Hp1 : 0 < 2 ^ n1') by (apply Z.pow_pos_nonneg; lia).
  assert (HK : M <= (Zpos m * 2 ^ (k - n1')) * 2 ^ n1').
  { rewrite <- Z.mul_assoc, <- Z.pow_add_r by lia.
    replace (k - n1' + n1') with k by lia. exact HM. }
  destruct (round_nearest_even_le M n1' _ mrs1 ltac:(unfold M; lia) Hinv1 HK)
    as [[Hq1a Hq1b] Hq1c].
  set (q1 := round_nearest_even (shr_m mrs1) (loc_of_shr_record mrs1)) in *.
  assert (Hq1d : q1 <= 2 ^ 53).
  { assert (M / 2 ^ n1' < 2 ^ 53); [|lia].
    apply Z.div_lt_upper_bound; [lia|].
    rewrite <- Z.pow_add_r by lia.
    apply Z.lt_le_trans with (2 ^ dM); [lia|].
    apply Z.pow_le_mono_r; lia. }
  set (n2 := fexp prec emax (Zdigits2 q1 + e1) - e1).
  destruct (shr_inv_shr q1 e1 n2 Hq1a) as [Hinv2 He2].
  destruct (shr (shr_record_of_loc q1 loc_Exact) e1 n2) as [mrs2 e2].
  simpl fst in Hinv2. simpl snd in He2.
  set (n2' := Z.max 0 n2) in *.
  destruct Hinv2 as (_ & Hq2 & _).
  assert (Hn2 : 0 <= n2' /\ n1' + n2' <= k).
  { split; [unfold n2'; lia|].
    destruct q1 as [|q|q] eqn:Eq1; [| |lia].
    - unfold n2', n2, fexp, SpecFloat.emin, prec, emax in *. simpl Zdigits2. lia.
    - pose proof (digits2_pos_bounds q) as Bq.
      simpl Zdigits2 in n2.
      set (dq := Zpos (digits2_pos q)) in *.
      assert (Hdq : dq <= 54).
      { assert (Hlt : 2 ^ (dq - 1) < 2 ^ 54) by (change (2 ^ 54) with (2 * 2 ^ 53); lia).
        apply pow2_lt_exponent in Hlt; lia. }
      assert (Hn2le : n2' <= 1).
      { unfold n2', n2, fexp, SpecFloat.emin, prec, emax in *. lia. }
      destruct (Z_le_gt_dec n2' 0) as [H0|H1]; [lia|].
      assert (dq = 54) by (unfold n2', n2, fexp, SpecFloat.emin, prec, emax in *; lia).
      assert (Hq53 : 2 ^ 53 <= Zpos q) by (replace 53 with (dq - 1) by lia; lia).
      assert (Hlt : 2 ^ 53 < 2 ^ (53 + (k - n1'))).
      { rewrite Z.pow_add_r by lia.
        assert (Zpos m < 2 ^ 53).
        { apply Z.lt_le_trans with (2 ^ dm); [lia|]. apply Z.pow_le_mono_r; lia. }
        assert (0 < 2 ^ (k - n1')) by (apply Z.pow_pos_nonneg; lia).
        nia. }
      apply pow2_lt_exponent in Hlt; lia. }
  destruct Hn2 as [Hn2a Hn2b].
  assert (Hp2 : 0 < 2 ^ n2') by (apply Z.pow_pos_nonneg; lia).
  assert (Hq2le : shr_m mrs2 * 2 ^ n2' <= q1).
  { rewrite Hq2, Z.mul_comm. apply Z.mul_div_le. lia. }
  assert (Hq2nn : 0 <= shr_m mrs2) by (rewrite Hq2; apply Z.div_pos; lia).
  assert (He2' : e2 = e - (k - n1' - n2')) by (unfold ex, k in *; lia).
  destruct (shr_m mrs2) as [|q|q] eqn:Eq2; [reflexivity| |lia].
  replace (e2 <=? emax - prec) with true
    by (symmetry; apply Z.leb_le; unfold emax, prec; lia).
  unfold SFleb, SFcompare.
  destruct (Z.compare_spec e2 e) as [Heq|Hlt|Hgt]; [|reflexivity|lia].
  assert (Hqm : Zpos q <= Zpos m).
  { assert (k - n1' = n2') by lia.
    replace (k - n1') with n2' in Hq1b by lia. nia. }
  change (Pos.compare_cont Eq q m) with (Pos.compare q m).
  destruct (Pos.compare_spec q m) as [?|?|Hgt]; [reflexivity|reflexivity|lia].
Qed.

End Product.

(* ===================================================================== *)
(** ** Signs of products *)
(* ===================================================================== *)

Section Signs.
Local Open Scope Z_scope.

Lemma binary_round_aux_opp (s : bool) (M E : Z) :
  binary_round_aux prec emax (negb s) M E loc_Exact =
  SFopp (binary_round_aux prec emax s M E loc_Exact).
Proof.
  unfold binary_round_aux.
  destruct (shr_fexp prec emax M E loc_Exact) as [mrs1 e1].
  destruct (shr_fexp prec emax _ e1 loc_Exact) as [mrs2 e2].
  destruct (shr_m mrs2); try reflexivity.
  destruct (e2 <=? emax - prec); reflexivity.
Qed.

Lemma SFmul_opp_l (x y : spec_float) :
  SFmul prec emax (SFopp x) y = SFopp (SFmul prec emax x y).
Proof.
  destruct x as [sx|sx| |sx mx ex], y as [sy|sy| |sy my ey]; simpl;
    try reflexivity; try (rewrite <- negb_xorb_l; reflexivity).
  rewrite <- negb_xorb_l. apply binary_round_aux_opp.
Qed.

Lemma SFmul_opp_r (x y : spec_float) :
  SFmul prec emax x (SFopp y) = SFopp (SFmul prec emax x y).
Proof.
  rewrite (SFmul_comm prec emax x (SFopp y)), SFmul_opp_l.
  rewrite (SFmul_comm prec emax y x). reflexivity.
Qed.

Lemma SFopp_involutive (x : spec_float) : SFopp (SFopp x) = x.
Proof. destruct x; simpl; rewrite ?negb_involutive; reflexivity. Qed.

Lemma binary_round_aux_signed (s : bool) (m : positive) (E : Z) :
  SFsigned s (binary_round_aux prec emax s (Zpos m) E loc_Exact) = true.
Proof.
  pose proof (binary_round_aux_number prec emax s m E) as Hnan.
  revert Hnan. unfold binary_round_aux.
  destruct (shr_fexp prec emax (Zpos m) E loc_Exact) as [mrs1 e1].
  destruct (shr_fexp prec emax _ e1 loc_Exact) as [mrs2 e2].
  destruct (shr_m mrs2); simpl; intros Hnan.
  - apply eqb_reflx.
  - destruct (e2 <=? _); simpl; apply eqb_reflx.
  - congruence.
Qed.

Lemma SFleb_zero_signed (x : spec_float) :
  SFleb (S754_zero false) x = SFsigned false x || match x with S754_zero _ => true | _ => false end.
Proof. destruct x as [s|s| |s m e]; try destruct s; reflexivity. Qed.

End Signs.

Local Open Scope float_scope.

Lemma mul_opp_l (x y : float) : (- x) * y = - (x * y).
Proof.
  apply Prim2SF_inj. rewrite mul_spec, !opp_spec, mul_spec. apply SFmul_opp_l.
Qed.

Lemma mul_opp_opp (x y : float) : (- x) * (- y) = x * y.
Proof.
  apply Prim2SF_inj. rewrite !mul_spec, !opp_spec.
  unfold SF64mul. rewrite SFmul_opp_l, SFmul_opp_r, SFopp_involutive. reflexivity.
Qed.

(** A product with a finite non-zero constant is a NaN only for a NaN. *)
Lemma number_mul_constant (x c : float) :
  SFfinite_nonzero (Prim2SF c) = true -> number (x * c) = number x.
Proof.
  intros Hc. destruct (number x) eqn:Hx.
  - apply mul_number_finite; assumption.
  - unfold number in *. rewrite mul_spec.
    destruct (Prim2SF x); try discriminate Hx. reflexivity.
Qed.

(* ===================================================================== *)
(** ** Discounts and areas on every float64 *)
(* ===================================================================== *)

Section Bounds.
Local Open Scope Z_scope.

Lemma SFmul_factor_nonneg (x : spec_float) (mc : positive) (ec : Z) :
  SFleb (S754_zero false) x = true ->
  SFleb (S754_zero false) (SFmul prec emax x (S754_finite false mc ec)) = true.
Proof.
  destruct x as [s|s| |s m e]; try destruct s; try discriminate; intros _; try reflexivity.
  simpl SFmul. rewrite SFleb_zero_signed, binary_round_aux_signed. reflexivity.
Qed.

Lemma SFmul_factor_le_nonneg (x : spec_float) (mc : positive) (ec : Z) :
  valid_binary x = true -> ec <= 0 -> Zpos mc <= 2 ^ (- ec) ->
  SFleb (S754_zero false) x = true ->
  SFleb (SFmul prec emax x (S754_finite false mc ec)) x = true.
Proof.
  intros Hv Hec Hmc.
  destruct x as [s|s| |s m e]; try destruct s; try discriminate; intros _; try reflexivity.
  apply SFmul_factor_le; assumption.
Qed.

Lemma SFmul_factor_finite (x : spec_float) (mc : positive) (ec : Z) :
  valid_binary x = true -> ec <= 0 -> Zpos mc <= 2 ^ (- ec) ->
  SFfinite x = true ->
  SFfinite (SFmul prec emax x (S754_finite false mc ec)) = true.
Proof.
  intros Hv Hec Hmc.
  destruct x as [s|s| |s m e]; try discriminate; intros _; [reflexivity|].
  assert (Hpos : SFfinite (SFmul prec emax (S754_finite false m e) (S754_finite false mc ec)) = true).
  { pose proof (SFmul_factor_le m mc e ec Hv Hec Hmc) as Hle.
    pose proof (binary_round_aux_signed false (m * mc) (e + ec)) as Hs.
    simpl SFmul in *.
    destruct (binary_round_aux prec emax false (Zpos (m * mc)) (e + ec) loc_Exact)
      as [s'|s'| |s' m' e']; try reflexivity; try discriminate Hs.
    destruct s'; discriminate. }
  destruct s; [|exact Hpos].
  change (S754_finite true m e) with (SFopp (S754_finite false m e)).
  rewrite SFmul_opp_l.
  destruct (SFmul prec emax (S754_finite false m e) (S754_finite false mc ec));
    try discriminate Hpos; reflexivity.
Qed.

Lemma SFmul_square_nonneg (x : spec_float) :
  SFleb (S754_zero false) (SFmul prec emax x x) = SFnumber x.
Proof.
  destruct x as [s|s| |s m e]; try destruct s; try reflexivity;
    simpl SFmul; rewrite SFleb_zero_signed, binary_round_aux_signed; reflexivity.
Qed.

Lemma SFmul_scaled_square_nonneg (x : spec_float) (mc : positive) (ec : Z) :
  SFleb (S754_zero false)
    (SFmul prec emax (SFmul prec emax (S754_finite false mc ec) x) x) = SFnumber x.
Proof.
  destruct x as [s|s| |s m e]; try destruct s; try reflexivity.
  - simpl SFmul at 2.
    pose proof (binary_round_aux_signed true (mc * m) (ec + e)) as Hs.
    simpl xorb.
    destruct (binary_round_aux prec emax true (Zpos (mc * m)) (ec + e) loc_Exact)
      as [s'|s'| |s' m' e']; simpl in Hs; try discriminate Hs;
      destruct s'; try discriminate Hs; try reflexivity.
    simpl SFmul. rewrite SFleb_zero_signed, binary_round_aux_signed. reflexivity.
  - simpl SFmul at 2.
    pose proof (binary_round_aux_signed false (mc * m) (ec + e)) as Hs.
    simpl xorb.
    destruct (binary_round_aux prec emax false (Zpos (mc * m)) (ec + e) loc_Exact)
      as [s'|s'| |s' m' e']; simpl in Hs; try discriminate Hs;
      destruct s'; try discriminate Hs; try reflexivity.
    simpl SFmul. rewrite SFleb_zero_signed, binary_round_aux_signed. reflexivity.
Qed.

End Bounds.

Local Open Scope float_scope.

Lemma leb_zero_spec (x : float) : (0 <=? x) = SFleb (S754_zero false) (Prim2SF x).
Proof. rewrite leb_spec. reflexivity. Qed.

Lemma discount_factors :
  (exists mc ec, Prim2SF 0.9 = S754_finite false mc ec /\ (ec <= 0)%Z /\ (Zpos mc <= 2 ^ (- ec))%Z) /\
  (exists mc ec, Prim2SF 0.8 = S754_finite false mc ec /\ (ec <= 0)%Z /\ (Zpos mc <= 2 ^ (- ec))%Z).
Proof.
  destruct constants as (E9 & E8 & _).
  split; eexists; eexists; (split; [eassumption|]); split; try lia;
    vm_compute; discriminate.
Qed.

Lemma mul_factor_bounds (p c : float) :
  (exists mc ec, Prim2SF c = S754_finite false mc ec /\ (ec <= 0)%Z /\ (Zpos mc <= 2 ^ (- ec))%Z) ->
  (0 <=? p) = true -> (0 <=? p * c) = true /\ (p * c <=? p) = true.
Proof.
  intros (mc & ec & Ec & Hec & Hmc) Hp.
  rewrite leb_zero_spec in *. rewrite leb_spec, mul_spec, Ec. unfold SF64mul. split.
  - apply SFmul_factor_nonneg, Hp.
  - apply SFmul_factor_le_nonneg; auto using Prim2SF_valid.
Qed.

Lemma mul_factor_finite (p c : float) :
  (exists mc ec, Prim2SF c = S754_finite false mc ec /\ (ec <= 0)%Z /\ (Zpos mc <= 2 ^ (- ec))%Z) ->
  finite p = true -> finite (p * c) = true.
Proof.
  intros (mc & ec & Ec & Hec & Hmc) Hp. unfold finite in *.
  rewrite mul_spec, Ec. apply SFmul_factor_finite; auto using Prim2SF_valid.
Qed.

(** X1. A discount never raises a price and never makes it negative: for
    every price p >= 0 (zero and +Inf included), both ApplyDiscount methods
    return a value between 0 and p. *)
Theorem discount_between_zero_and_price (p : float) (Hp : (0 <=? p) = true) :
  ((0 <=? RegularDiscount_ApplyDiscount Build_RegularDiscount p) = true /\
   (RegularDiscount_ApplyDiscount Build_RegularDiscount p <=? p) = true) /\
  ((0 <=? HolidayDiscount_ApplyDiscount Build_HolidayDiscount p) = true /\
   (HolidayDiscount_ApplyDiscount Build_HolidayDiscount p <=? p) = true).
Proof.
  destruct discount_factors as [F9 F8].
  split; [exact (mul_factor_bounds p 0.9 F9 Hp) | exact (mul_factor_bounds p 0.8 F8 Hp)].
Qed.

Lemma discount_between_zero_and_price_witness :
  (0 <=? 100.0) = true /\
  (RegularDiscount_ApplyDiscount Build_RegularDiscount 100.0 <=? 100.0) = true /\
  (HolidayDiscount_ApplyDiscount Build_HolidayDiscount 100.0 <=? 100.0) = true.
Proof.
  split; [reflexivity|].
  pose proof (discount_between_zero_and_price 100.0 eq_refl) as H.
  split; [exact (proj2 (proj1 H)) | exact (proj2 (proj2 H))].
Defined.

(** X4. ApplyDiscount neither overflows nor produces a NaN: on every finite
    price, of either sign, both methods return a finite value. *)
Theorem discount_of_finite_is_finite (p : float) (Hp : finite p = true) :
  finite (RegularDiscount_ApplyDiscount Build_RegularDiscount p) = true /\
  finite (HolidayDiscount_ApplyDiscount Build_HolidayDiscount p) = true.
Proof.
  destruct discount_factors as [F9 F8].
  split; [exact (mul_factor_finite p 0.9 F9 Hp) | exact (mul_factor_finite p 0.8 F8 Hp)].
Qed.

Lemma discount_of_finite_is_finite_witness :
  finite (-100.0) = true /\
  finite (RegularDiscount_ApplyDiscount Build_RegularDiscount (-100.0)) = true.
Proof.
  split; [reflexivity|].
  exact (proj1 (discount_of_finite_is_finite (-100.0) eq_refl)).
Defined.

Lemma number_opp (x : float) : number (- x) = number x.
Proof.
  unfold number. rewrite opp_spec. destruct (Prim2SF x); reflexivity.
Qed.

(** X5. Both ApplyDiscount methods commute with negation on every price
    that is not a NaN, of either sign, zeros and infinities included: the
    discount of -p is the negation of the discount of p, as the same
    float64 (sign of a zero included) and under Go's ==. *)
Theorem discount_odd (p : float) (Hp : number p = true) :
  (RegularDiscount_ApplyDiscount Build_RegularDiscount (- p) =
     - RegularDiscount_ApplyDiscount Build_RegularDiscount p /\
   (RegularDiscount_ApplyDiscount Build_RegularDiscount (- p) =?
      - RegularDiscount_ApplyDiscount Build_RegularDiscount p) = true) /\
  (HolidayDiscount_ApplyDiscount Build_HolidayDiscount (- p) =
     - HolidayDiscount_ApplyDiscount Build_HolidayDiscount p /\
   (HolidayDiscount_ApplyDiscount Build_HolidayDiscount (- p) =?
      - HolidayDiscount_ApplyDiscount Build_HolidayDiscount p) = true).
Proof.
  destruct constants as (E9 & E8 & _).
  unfold RegularDiscount_ApplyDiscount, HolidayDiscount_ApplyDiscount.
  split; (split; [apply mul_opp_l|]); rewrite <- mul_opp_l; apply eqb_refl;
    rewrite number_mul_constant, number_opp; try exact Hp;
    rewrite ?E9, ?E8; reflexivity.
Qed.

Lemma discount_odd_witness :
  number 100.0 = true /\
  RegularDiscount_ApplyDiscount Build_RegularDiscount (- 100.0) =
    - RegularDiscount_ApplyDiscount Build_RegularDiscount 100.0.
Proof.
  split; [reflexivity|].
  exact (proj1 (proj1 (discount_odd 100.0 eq_refl))).
Defined.

(** X6. Both ApplyDiscount methods return a NaN exactly when the price is a
    NaN. *)
Theorem discount_nan_only_of_nan (p : float) :
  number (RegularDiscount_ApplyDiscount Build_RegularDiscount p) = number p /\
  number (HolidayDiscount_ApplyDiscount Build_HolidayDiscount p) = number p.
Proof.
  destruct constants as (E9 & E8 & _).
  split; apply number_mul_constant; [rewrite E9|rewrite E8]; reflexivity.
Qed.

(** X7. The two discounts do not commute: applying the holiday discount and
    then the regular one is not always the same float64 as the other order
    (the two differ at the price 3). *)
Theorem discounts_do_not_commute :
  exists p : float,
    (0 <=? p)%float = true /\
    RegularDiscount_ApplyDiscount Build_RegularDiscount (HolidayDiscount_ApplyDiscount Build_HolidayDiscount p) <>
    HolidayDiscount_ApplyDiscount Build_HolidayDiscount (RegularDiscount_ApplyDiscount Build_RegularDiscount p).
Proof.
  exists 3%float. split; [reflexivity|]. intros H.
  apply (f_equal Prim2SF) in H. vm_compute in H. discriminate H.
Qed.

Lemma SFmul_square_number (x : spec_float) :
  SFnumber (SFmul prec emax x x) = SFnumber x.
Proof.
  destruct x as [s|s| |s m e]; try reflexivity.
  apply SFmul_number_finite; reflexivity.
Qed.

Lemma SFmul_scaled_square_number (x : spec_float) (mc : positive) (ec : Z) :
  SFnumber (SFmul prec emax (SFmul prec emax (S754_finite false mc ec) x) x) = SFnumber x.
Proof.
  destruct x as [s|s| |s m e]; try reflexivity.
  apply SFmul_number_finite; [|reflexivity].
  apply SFmul_number_finite; reflexivity.
Qed.

(** The area of a square is a NaN exactly for a NaN width, and likewise the
    area of a circle for its radius. *)
Lemma area_number (x : float) :
  number (Square_Area {| Width := x |}) = number x /\
  number (Circle_Area {| Radius := x |}) = number x.
Proof.
  destruct constants as (_ & _ & E).
  unfold Square_Area, Circle_Area, Width, Radius, number.
  rewrite !mul_spec. unfold SF64mul.
  split; [apply SFmul_square_number | rewrite E; apply SFmul_scaled_square_number].
Qed.

(** X8. Both Area methods ignore the sign of a dimension that is not a NaN,
    zeros and infinities included: a negative width or radius gives the
    area of its absolute value, as the same float64 and under Go's ==. *)
Theorem area_even (x : float) (Hx : number x = true) :
  (Square_Area {| Width := - x |} = Square_Area {| Width := x |} /\
   (Square_Area {| Width := - x |} =? Square_Area {| Width := x |}) = true) /\
  (Circle_Area {| Radius := - x |} = Circle_Area {| Radius := x |} /\
   (Circle_Area {| Radius := - x |} =? Circle_Area {| Radius := x |}) = true).
Proof.
  destruct (area_number x) as [Ns Nc]. rewrite Hx in Ns, Nc.
  assert (Es : Square_Area {| Width := - x |} = Square_Area {| Width := x |}).
  { unfold Square_Area, Width. apply mul_opp_opp. }
  assert (Ec : Circle_Area {| Radius := - x |} = Circle_Area {| Radius := x |}).
  { unfold Circle_Area, Radius.
    rewrite (mul_comm 3.14 (- x)), mul_opp_l, mul_opp_opp, (mul_comm x 3.14). reflexivity. }
  split; (split; [assumption|]).
  - rewrite Es. apply eqb_refl, Ns.
  - rewrite Ec. apply eqb_refl, Nc.
Qed.

Lemma area_even_witness :
  number 5 = true /\
  Square_Area {| Width := - 5 |} = Square_Area {| Width := 5 |} /\
  Circle_Area {| Radius := - 5 |} = Circle_Area {| Radius := 5 |}.
Proof.
  split; [reflexivity|].
  pose proof (area_even 5 eq_refl) as H.
  split; [exact (proj1 (proj1 H)) | exact (proj1 (proj2 H))].
Defined.

(** X9. Both Area methods return a value >= 0 for every dimension that is
    not a NaN, whatever its sign or size, and a NaN for a NaN: [0 <= area]
    holds exactly when the dimension is a number, and the area is a number
    exactly when the dimension is. *)
Theorem area_nonneg_unless_nan (x : float) :
  ((0 <=? Square_Area {| Width := x |}) = number x /\
   number (Square_Area {| Width := x |}) = number x) /\
  ((0 <=? Circle_Area {| Radius := x |}) = number x /\
   number (Circle_Area {| Radius := x |}) = number x).
Proof.
  destruct constants as (_ & _ & E).
  destruct (area_number x) as [Ns Nc].
  split; (split; [|assumption]); unfold Square_Area, Circle_Area, Width, Radius;
    rewrite leb_zero_spec, !mul_spec; unfold SF64mul, number.
  - apply SFmul_square_nonneg.
  - rewrite E. apply SFmul_scaled_square_nonneg.
Qed.

(* ===================================================================== *)
(** ** Rounding of a product: the exact result *)
(* ===================================================================== *)

Section Exact.
Local Open Scope Z_scope.

Lemma mod_pow2_split (m0 k : Z) :
  0 < k -> m0 mod 2 ^ k = m0 mod 2 ^ (k - 1) + 2 ^ (k - 1) * (m0 / 2 ^ (k - 1) mod 2).
Proof.
  intros Hk.
  replace (2 ^ k) with (2 ^ (k - 1) * 2).
  - apply Z.rem_mul_r; [|lia]. apply Z.pow_nonzero; lia.
  - rewrite <- (Z.pow_1_r 2) at 2. rewrite <- Z.pow_add_r by lia. f_equal. lia.
Qed.

Lemma shr_exact_init (m0 : Z) : shr_exact m0 0 (shr_record_of_loc m0 loc_Exact).
Proof.
  unfold shr_exact; simpl. repeat split; [lia | rewrite Z.div_1_r; reflexivity].
Qed.

Lemma shr_1_exact (m0 k : Z) (mrs : shr_record) :
  0 <= m0 -> shr_exact m0 k mrs -> shr_exact m0 (k + 1) (shr_1 mrs).
Proof.
  intros Hm0 (Hk & Hm & Hr & Hs).
  assert (Hpow : 0 < 2 ^ k) by (apply Z.pow_pos_nonneg; lia).
  assert (Hq : 0 <= m0 / 2 ^ k) by (apply Z.div_pos; lia).
  assert (Hdiv : m0 / 2 ^ (k + 1) = m0 / 2 ^ k / 2).
  { rewrite Z.pow_add_r, Z.pow_1_r, Z.div_div by lia. reflexivity. }
  destruct mrs as [m r s]. simpl in Hm, Hr, Hs.
  unfold shr_exact. split; [lia|].
  replace (k + 1 - 1) with k by lia.
  replace (0 <? k + 1) with true by (symmetry; apply Z.ltb_lt; lia).
  rewrite Hdiv, <- Hm. rewrite <- Hm in Hq. rewrite !andb_true_l.
  assert (Hsticky : r || s = negb (m0 mod 2 ^ k =? 0)).
  { rewrite Hr, Hs. destruct (Z.ltb_spec 0 k) as [Hpos|Hzero].
    - rewrite !andb_true_l, (mod_pow2_split m0 k Hpos), Zmod_odd.
      assert (Hh : 0 < 2 ^ (k - 1)) by (apply Z.pow_pos_nonneg; lia).
      pose proof (Z.mod_pos_bound m0 (2 ^ (k - 1)) Hh) as B.
      destruct (Z.odd (m0 / 2 ^ (k - 1))); simpl.
      + symmetry. apply negb_true_iff, Z.eqb_neq. lia.
      + rewrite Z.mul_0_r, Z.add_0_r. reflexivity.
    - replace k with 0 by lia. simpl. rewrite Z.mod_1_r. reflexivity. }
  destruct m as [|[p|p|]|[p|p|]]; simpl; try lia; rewrite <- ?Hsticky;
    repeat split; try reflexivity.
  - rewrite Pos2Z.inj_xI. apply Z.div_unique with 1; lia.
  - rewrite Pos2Z.inj_xO. apply Z.div_unique with 0; lia.
Qed.

Lemma iter_shr_1_exact (m0 : Z) (p : positive) :
  0 <= m0 -> forall k mrs, shr_exact m0 k mrs -> shr_exact m0 (k + Zpos p) (iter_pos shr_1 p mrs).
Proof.
  intros Hm0. induction p as [p IH|p IH|]; intros k mrs H; simpl.
  - replace (k + Zpos p~1) with (k + 1 + Zpos p + Zpos p) by lia.
    apply IH, IH, shr_1_exact; assumption.
  - replace (k + Zpos p~0) with (k + Zpos p + Zpos p) by lia.
    apply IH, IH; assumption.
  - apply shr_1_exact; assumption.
Qed.

Lemma shr_exact_shr (m0 e n : Z) :
  0 <= m0 ->
  shr_exact m0 (Z.max 0 n) (fst (shr (shr_record_of_loc m0 loc_Exact) e n)).
Proof.
  intros Hm0. unfold shr. destruct n as [|p|p]; simpl fst.
  - apply shr_exact_init.
  - rewrite Z.max_r by lia. apply (iter_shr_1_exact m0 p Hm0 0), shr_exact_init.
  - rewrite Z.max_l by lia. apply shr_exact_init.
Qed.

(** The mantissa the first rounding step keeps is the quotient rounded to
    nearest, ties to even. *)
Lemma round_nearest_even_exact (m0 k : Z) (mrs : shr_record) :
  0 <= m0 -> shr_exact m0 k mrs ->
  round_nearest_even (shr_m mrs) (loc_of_shr_record mrs) =
  strconv.round_half_even m0 (2 ^ k).
Proof.
  intros Hm0 (Hk & Hm & Hr & Hs).
  destruct mrs as [m r s]. simpl in *. subst m r s.
  unfold strconv.round_half_even.
  destruct (Z.ltb_spec 0 k) as [Hpos|Hzero].
  - rewrite !andb_true_l, (mod_pow2_split m0 k Hpos), Zmod_odd.
    assert (Hh : 0 < 2 ^ (k - 1)) by (apply Z.pow_pos_nonneg; lia).
    assert (H2 : 2 ^ k = 2 * 2 ^ (k - 1)).
    { rewrite <- (Z.pow_1_r 2) at 2. rewrite <- Z.pow_add_r by lia. f_equal. lia. }
    pose proof (Z.mod_pos_bound m0 (2 ^ (k - 1)) Hh) as B.
    destruct (Z.odd (m0 / 2 ^ (k - 1)));
      cbn [negb andb loc_of_shr_record round_nearest_even shr_m].
    + destruct (Z.eqb_spec (m0 mod 2 ^ (k - 1)) 0) as [E0|N0];
        cbn [negb andb loc_of_shr_record round_nearest_even shr_m].
      * replace (2 * (m0 mod 2 ^ (k - 1) + 2 ^ (k - 1) * 1) ?= 2 ^ k) with Eq
          by (symmetry; apply Z.compare_eq_iff; lia). reflexivity.
      * replace (2 * (m0 mod 2 ^ (k - 1) + 2 ^ (k - 1) * 1) ?= 2 ^ k) with Gt
          by (symmetry; apply Z.compare_gt_iff; lia). reflexivity.
    + replace (2 * (m0 mod 2 ^ (k - 1) + 2 ^ (k - 1) * 0) ?= 2 ^ k) with Lt
        by (symmetry; apply Z.compare_lt_iff; lia).
      destruct (negb _); reflexivity.
  - replace k with 0 by lia. simpl. rewrite Z.mod_1_r, Z.div_1_r. reflexivity.
Qed.

End Exact.

Section Monotone.
Local Open Scope Z_scope.

Lemma binary_round_aux_SFround (M : positive) (E : Z) :
  binary_round_aux prec emax false (Zpos M) E loc_Exact = SFround (Zpos M) E.
Proof.
  unfold binary_round_aux, shr_fexp, SFround.
  set (n := fexp prec emax (Zdigits2 (Zpos M) + E) - E).
  pose proof (shr_exact_shr (Zpos M) E n ltac:(lia)) as Hex.
  destruct (shr_inv_shr (Zpos M) E n ltac:(lia)) as [Hinv1 He1].
  destruct (shr (shr_record_of_loc (Zpos M) loc_Exact) E n) as [mrs1 e1].
  simpl fst in *. simpl snd in He1. subst e1.
  rewrite (round_nearest_even_exact (Zpos M) (Z.max 0 n) mrs1 ltac:(lia) Hex).
  set (q := strconv.round_half_even (Zpos M) (2 ^ Z.max 0 n)).
  assert (Hq : 0 <= q).
  { unfold q. rewrite <- (round_nearest_even_exact (Zpos M) (Z.max 0 n) mrs1 ltac:(lia) Hex).
    destruct Hinv1 as (_ & Hm & _).
    apply round_nearest_even_nonneg. rewrite Hm. apply Z.div_pos; [lia|].
    apply Z.pow_pos_nonneg; lia. }
  set (n2 := fexp prec emax (Zdigits2 q + (E + Z.max 0 n)) - (E + Z.max 0 n)).
  destruct (shr_inv_shr q (E + Z.max 0 n) n2 Hq) as [(_ & Hm2 & _) He2].
  destruct (shr (shr_record_of_loc q loc_Exact) (E + Z.max 0 n) n2) as [mrs2 e2].
  simpl fst in *. simpl snd in He2. subst e2. rewrite Hm2. reflexivity.
Qed.

Lemma round_half_even_bounds (M D : Z) :
  0 < D -> M / D <= strconv.round_half_even M D <= M / D + 1.
Proof.
  intros HD. unfold strconv.round_half_even.
  destruct (2 * (M mod D) ?= D); [destruct (Z.even (M / D))| |]; lia.
Qed.

Lemma round_half_even_mono (M1 M2 D : Z) :
  0 < D -> M1 <= M2 ->
  strconv.round_half_even M1 D <= strconv.round_half_even M2 D.
Proof.
  intros HD HM.
  pose proof (Z.div_le_mono M1 M2 D HD HM) as Hf.
  pose proof (round_half_even_bounds M1 D HD) as B1.
  pose proof (round_half_even_bounds M2 D HD) as B2.
  destruct (Z_lt_le_dec (M1 / D) (M2 / D)) as [Hlt|Hge]; [lia|].
  assert (Ef : M1 / D = M2 / D) by lia.
  pose proof (Z.div_mod M1 D ltac:(lia)) as E1.
  pose proof (Z.div_mod M2 D ltac:(lia)) as E2.
  assert (Hrem : M1 mod D <= M2 mod D) by (rewrite Ef in E1; nia).
  unfold strconv.round_half_even. rewrite Ef.
  destruct (Z.compare_spec (2 * (M1 mod D)) D), (Z.compare_spec (2 * (M2 mod D)) D);
    destruct (Z.even (M2 / D)); lia.
Qed.

Lemma Zdigits2_mono (M1 M2 : positive) :
  Zpos M1 <= Zpos M2 -> Zpos (digits2_pos M1) <= Zpos (digits2_pos M2).
Proof.
  intros H.
  pose proof (digits2_pos_bounds M1) as B1.
  pose proof (digits2_pos_bounds M2) as B2.
  assert (Hlt : 2 ^ (Zpos (digits2_pos M1) - 1) < 2 ^ Zpos (digits2_pos M2)) by lia.
  apply pow2_lt_exponent in Hlt; lia.
Qed.

(** The second shift: none below [2^53], one at [2^53]. *)
Lemma second_shift (q e1 : Z) :
  0 <= q <= 2 ^ 53 -> -1074 <= e1 ->
  let n2 := Z.max 0 (fexp prec emax (Zdigits2 q + e1) - e1) in
  (q < 2 ^ 53 /\ n2 = 0) \/ (q = 2 ^ 53 /\ n2 = 1).
Proof.
  intros [Hq0 Hq] He1. cbv zeta.
  destruct (Z_lt_le_dec q (2 ^ 53)) as [Hlt|Hge].
  - left. split; [exact Hlt|].
    destruct q as [|p|p]; [| |lia].
    + unfold fexp, SpecFloat.emin, prec, emax. simpl Zdigits2. lia.
    + pose proof (digits2_pos_bounds p) as B. simpl Zdigits2.
      assert (Hd : 2 ^ (Zpos (digits2_pos p) - 1) < 2 ^ 53) by lia.
      apply pow2_lt_exponent in Hd; [|lia].
      unfold fexp, SpecFloat.emin, prec, emax. lia.
  - right. assert (Eq : q = 2 ^ 53) by lia. split; [exact Eq|]. subst q.
    change (Zdigits2 (2 ^ 53)) with 54.
    unfold fexp, SpecFloat.emin, prec, emax. lia.
Qed.

Lemma round_result_le (r1 e1 r2 e2 : Z) :
  0 <= r1 -> 0 <= r2 ->
  r1 = 0 \/ (e1 < e2 /\ 0 < r2) \/ (e1 = e2 /\ r1 <= r2) ->
  SFleb (round_result r1 e1) (round_result r2 e2) = true.
Proof.
  intros H1 H2 H. unfold round_result.
  destruct r1 as [|p1|p1]; [| |lia]; destruct r2 as [|p2|p2]; try lia.
  - reflexivity.
  - destruct (e2 <=? _); reflexivity.
  - destruct (Z.leb_spec e1 (emax - prec)), (Z.leb_spec e2 (emax - prec)); try reflexivity.
    + unfold SFleb, SFcompare.
      destruct (Z.compare_spec e1 e2) as [Heq|Hlt|Hgt]; [|reflexivity|lia].
      change (Pos.compare_cont Eq p1 p2) with (Pos.compare p1 p2).
      destruct (Pos.compare_spec p1 p2); [reflexivity|reflexivity|lia].
    + exfalso. lia.
Qed.

(** The first shift and the rounded quotient of a positive mantissa. *)
Lemma first_shift (M : positive) (E : Z) :
  let n := Z.max 0 (fexp prec emax (Zdigits2 (Zpos M) + E) - E) in
  let q := strconv.round_half_even (Zpos M) (2 ^ n) in
  n = Z.max 0 (Z.max (Zpos (digits2_pos M) - 53) (-1074 - E)) /\
  0 <= q <= 2 ^ 53 /\ Zpos M / 2 ^ n <= q /\
  (0 < Zpos (digits2_pos M) - 53 -> -1074 - E < Zpos (digits2_pos M) - 53 -> 2 ^ 52 <= q).
Proof.
  cbv zeta. simpl Zdigits2.
  set (d := Zpos (digits2_pos M)).
  assert (En : Z.max 0 (fexp prec emax (d + E) - E) = Z.max 0 (Z.max (d - 53) (-1074 - E))).
  { unfold fexp, SpecFloat.emin, prec, emax. lia. }
  rewrite En. set (n := Z.max 0 (Z.max (d - 53) (-1074 - E))).
  assert (Hn : 0 <= n) by (unfold n; lia).
  assert (Hp : 0 < 2 ^ n) by (apply Z.pow_pos_nonneg; lia).
  pose proof (digits2_pos_bounds M) as B. fold d in B.
  pose proof (round_half_even_bounds (Zpos M) (2 ^ n) Hp) as Bq.
  assert (Hf0 : 0 <= Zpos M / 2 ^ n) by (apply Z.div_pos; lia).
  assert (Hf : Zpos M / 2 ^ n < 2 ^ 53).
  { apply Z.div_lt_upper_bound; [lia|]. rewrite <- Z.pow_add_r by lia.
    apply Z.lt_le_trans with (2 ^ d); [lia|]. apply Z.pow_le_mono_r; unfold n; lia. }
  split; [reflexivity|]. split; [lia|]. split; [lia|].
  intros Hd1 Hd2. assert (n = d - 53) by (unfold n; lia).
  assert (2 ^ 52 <= Zpos M / 2 ^ n); [|lia].
  apply Z.div_le_lower_bound; [lia|]. rewrite Z.mul_comm, <- Z.pow_add_r by lia.
  replace (52 + n) with (d - 1) by lia. lia.
Qed.

(** Rounding is monotone in the mantissa, at a fixed exponent. *)
Lemma SFround_mono (M1 M2 : positive) (E : Z) :
  Zpos M1 <= Zpos M2 -> SFleb (SFround (Zpos M1) E) (SFround (Zpos M2) E) = true.
Proof.
  intros HM.
  pose proof (Zdigits2_mono M1 M2 HM) as Hd.
  destruct (first_shift M1 E) as (En1 & Bq1 & _ & _).
  destruct (first_shift M2 E) as (En2 & Bq2 & _ & Hbig2).
  unfold SFround.
  remember (Z.max 0 (fexp prec emax (Zdigits2 (Zpos M1) + E) - E)) as n1 eqn:Dn1.
  remember (Z.max 0 (fexp prec emax (Zdigits2 (Zpos M2) + E) - E)) as n2 eqn:Dn2.
  clear Dn1 Dn2.
  remember (strconv.round_half_even (Zpos M1) (2 ^ n1)) as q1 eqn:Dq1.
  remember (strconv.round_half_even (Zpos M2) (2 ^ n2)) as q2 eqn:Dq2.
  assert (Hn0 : 0 <= n1) by (rewrite En1; apply Z.le_max_l).
  assert (Hmono : n1 = n2 -> q1 <= q2).
  { intros En. rewrite Dq1, Dq2, <- En. apply round_half_even_mono; [|exact HM].
    apply Z.pow_pos_nonneg; [reflexivity | exact Hn0]. }
  clear Dq1 Dq2 HM.
  assert (He1 : -1074 <= E + n1) by lia.
  assert (He2 : -1074 <= E + n2) by lia.
  assert (Hbig : n1 < n2 -> 2 ^ 52 <= q2) by (intros Hlt; apply Hbig2; lia).
  assert (Hn : n1 <= n2) by lia.
  clear Hbig2 En1 En2 Hd.
  pose proof (second_shift q1 (E + n1) Bq1 He1) as S1.
  pose proof (second_shift q2 (E + n2) Bq2 He2) as S2.
  cbv zeta in S1, S2.
  remember (Z.max 0 (fexp prec emax (Zdigits2 q1 + (E + n1)) - (E + n1))) as k1 eqn:Dk1.
  remember (Z.max 0 (fexp prec emax (Zdigits2 q2 + (E + n2)) - (E + n2))) as k2 eqn:Dk2.
  clear Dk1 Dk2.
  assert (Hhalf : 2 ^ 53 / 2 ^ 1 = 2 ^ 52) by reflexivity.
  assert (H52 : 0 < 2 ^ 52 /\ 2 ^ 52 < 2 ^ 53) by (split; reflexivity).
  remember (2 ^ 52) as P eqn:DP. remember (2 ^ 53) as Q eqn:DQ. clear DP DQ.
  assert (Hr1 : 0 <= q1 / 2 ^ k1).
  { destruct S1 as [[_ ->]|[-> ->]]; [rewrite Z.div_1_r; lia | rewrite Hhalf; lia]. }
  assert (Hr2 : 0 <= q2 / 2 ^ k2).
  { destruct S2 as [[_ ->]|[-> ->]]; [rewrite Z.div_1_r; lia | rewrite Hhalf; lia]. }
  apply round_result_le; [exact Hr1 | exact Hr2 |].
  clear Hr1 Hr2.
  destruct (Z_lt_le_dec n1 n2) as [Hlt|Hge].
  - (* the larger mantissa is shifted further: it is a full 53-bit one *)
    specialize (Hbig Hlt). clear Hmono.
    destruct S1 as [[Hq1 ->]|[-> ->]]; destruct S2 as [[Hq2' ->]|[-> ->]];
      rewrite ?Z.div_1_r, ?Hhalf.
    + right. left. lia.
    + right. left. lia.
    + destruct (Z_lt_le_dec (n1 + 1) n2); [right; left; lia | right; right; lia].
    + right. left. lia.
  - assert (En : n1 = n2) by lia. specialize (Hmono En). clear Hbig.
    destruct S1 as [[Hq1 ->]|[E1q ->]]; destruct S2 as [[Hq2' ->]|[E2q ->]];
      rewrite ?Z.div_1_r; subst; rewrite ?Hhalf.
    + destruct (Z.eq_dec q1 0); [left; assumption | right; right; lia].
    + right. left. lia.
    + exfalso. lia.
    + right. right. lia.
Qed.

End Monotone.

(* ===================================================================== *)
(** ** Multiplication is monotone *)
(* ===================================================================== *)

Section Scaling.
Local Open Scope Z_scope.

Lemma digits2_pos_unique (p : positive) (d : Z) :
  2 ^ (d - 1) <= Zpos p < 2 ^ d -> Zpos (digits2_pos p) = d.
Proof.
  intros [Hl Hu]. pose proof (digits2_pos_bounds p) as [Bl Bu].
  assert (Hd : 0 < d).
  { destruct (Z_lt_le_dec 0 d) as [H|H]; [exact H|].
    destruct d as [|d|d]; [simpl in Hu; lia| lia | simpl in Hu; lia]. }
  assert (H1 : 2 ^ (d - 1) < 2 ^ Zpos (digits2_pos p)) by lia.
  assert (H2 : 2 ^ (Zpos (digits2_pos p) - 1) < 2 ^ d) by lia.
  apply pow2_lt_exponent in H1; [|lia]. apply pow2_lt_exponent in H2; lia.
Qed.

Lemma Zdigits2_shift (M : positive) (j : Z) :
  0 <= j -> Zdigits2 (Zpos M * 2 ^ j) = Zpos (digits2_pos M) + j.
Proof.
  intros Hj. pose proof (digits2_pos_bounds M) as [Bl Bu].
  assert (Hp : 0 < 2 ^ j) by (apply Z.pow_pos_nonneg; lia).
  destruct (Zpos M * 2 ^ j) as [|p|p] eqn:E; [nia| |nia].
  simpl Zdigits2. apply digits2_pos_unique. rewrite <- E.
  replace (Zpos (digits2_pos M) + j - 1) with (Zpos (digits2_pos M) - 1 + j) by lia.
  rewrite !Z.pow_add_r by lia. nia.
Qed.

Lemma round_half_even_scale (M D c : Z) :
  0 < D -> 0 < c ->
  strconv.round_half_even (M * c) (D * c) = strconv.round_half_even M D.
Proof.
  intros HD Hc. unfold strconv.round_half_even.
  rewrite Z.div_mul_cancel_r, Z.mul_mod_distr_r by lia.
  replace (2 * (M mod D * c) ?= D * c) with (2 * (M mod D) ?= D); [reflexivity|].
  destruct (Z.compare_spec (2 * (M mod D)) D) as [H|H|H]; symmetry;
    [apply Z.compare_eq_iff | apply Z.compare_lt_iff | apply Z.compare_gt_iff]; nia.
Qed.

(** The rounding does not depend on how the value is split into mantissa
    and exponent, once the mantissa needs no left shift. *)
Lemma SFround_scale (M : positive) (E j : Z) :
  0 <= j -> 0 <= Z.max (Zpos (digits2_pos M) - 53) (-1074 - E) ->
  SFround (Zpos M * 2 ^ j) (E - j) = SFround (Zpos M) E.
Proof.
  intros Hj Hn. unfold SFround.
  rewrite (Zdigits2_shift M j Hj). simpl (Zdigits2 (Zpos M)).
  set (d := Zpos (digits2_pos M)) in *.
  assert (En : Z.max 0 (fexp prec emax (d + j + (E - j)) - (E - j)) =
               Z.max 0 (fexp prec emax (d + E) - E) + j).
  { unfold fexp, SpecFloat.emin, prec, emax. lia. }
  rewrite En. set (n := Z.max 0 (fexp prec emax (d + E) - E)).
  assert (Hn0 : 0 <= n) by (unfold n; lia).
  rewrite Z.pow_add_r by lia.
  rewrite round_half_even_scale by (apply Z.pow_pos_nonneg; lia).
  replace (E - j + (n + j)) with (E + n) by lia. reflexivity.
Qed.

Lemma SFround_le (M1 M2 : positive) (E1 E2 : Z) :
  E1 <= E2 -> Zpos M1 <= Zpos M2 * 2 ^ (E2 - E1) ->
  0 <= Z.max (Zpos (digits2_pos M2) - 53) (-1074 - E2) ->
  SFleb (SFround (Zpos M1) E1) (SFround (Zpos M2) E2) = true.
Proof.
  intros HE HM Hn.
  rewrite <- (SFround_scale M2 E2 (E2 - E1)) by lia.
  replace (E2 - (E2 - E1)) with E1 by lia.
  assert (Hp : 0 < 2 ^ (E2 - E1)) by (apply Z.pow_pos_nonneg; lia).
  destruct (Zpos M2 * 2 ^ (E2 - E1)) as [|p|p] eqn:E; [nia| |nia].
  apply SFround_mono. exact HM.
Qed.

(** For valid positive finite numbers, the order read off exponents and
    mantissas is the order of the values. *)
Lemma valid_SFleb_value (m1 m2 : positive) (e1 e2 : Z) :
  valid_binary (S754_finite false m1 e1) = true ->
  valid_binary (S754_finite false m2 e2) = true ->
  SFleb (S754_finite false m1 e1) (S754_finite false m2 e2) = true ->
  e1 <= e2 /\ Zpos m1 <= Zpos m2 * 2 ^ (e2 - e1).
Proof.
  intros V1 V2. unfold SFleb, SFcompare.
  destruct (Z.compare_spec e1 e2) as [Heq|Hlt|Hgt].
  - subst e2. change (Pos.compare_cont Eq m1 m2) with (Pos.compare m1 m2).
    destruct (Pos.compare_spec m1 m2); try discriminate; intros _;
      rewrite Z.sub_diag, Z.mul_1_r; lia.
  - intros _. split; [lia|].
    unfold SpecFloat.valid_binary, bounded, canonical_mantissa, fexp,
      SpecFloat.emin, prec, emax in V1, V2.
    apply andb_prop in V1 as [V1 _]. apply andb_prop in V2 as [V2 _].
    apply Z.eqb_eq in V1, V2.
    pose proof (digits2_pos_bounds m1) as B1.
    pose proof (digits2_pos_bounds m2) as B2.
    assert (D1 : Zpos (digits2_pos m1) <= 53) by lia.
    assert (D2 : Zpos (digits2_pos m2) = 53) by lia.
    rewrite D2 in B2.
    assert (Zpos m1 < 2 ^ 53).
    { apply Z.lt_le_trans with (2 ^ Zpos (digits2_pos m1)); [lia|].
      apply Z.pow_le_mono_r; lia. }
    assert (2 ^ 1 <= 2 ^ (e2 - e1)) by (apply Z.pow_le_mono_r; lia).
    change (2 ^ (53 - 1)) with (2 ^ 52) in B2. change (2 ^ 53) with (2 ^ 52 * 2 ^ 1) in *.
    nia.
  - discriminate.
Qed.

Lemma product_shift_nonneg (m1 m2 : positive) (e1 e2 : Z) :
  valid_binary (S754_finite false m1 e1) = true ->
  valid_binary (S754_finite false m2 e2) = true ->
  0 <= Z.max (Zpos (digits2_pos (m1 * m2)) - 53) (-1074 - (e1 + e2)).
Proof.
  intros V1 V2.
  unfold SpecFloat.valid_binary, bounded, canonical_mantissa, fexp,
    SpecFloat.emin, prec, emax in V1, V2.
  apply andb_prop in V1 as [V1 _]. apply andb_prop in V2 as [V2 _].
  apply Z.eqb_eq in V1, V2.
  destruct (Z_le_gt_dec (e1 + e2) (-1074)) as [Hsmall|Hbig]; [lia|].
  assert (Hd : 53 <= Zpos (digits2_pos (m1 * m2))); [|lia].
  destruct (Z_le_gt_dec e1 (-1074)) as [H1|H1].
  - assert (D2 : Zpos (digits2_pos m2) = 53) by lia. rewrite <- D2.
    apply Zdigits2_mono. rewrite Pos2Z.inj_mul. nia.
  - assert (D1 : Zpos (digits2_pos m1) = 53) by lia. rewrite <- D1.
    apply Zdigits2_mono. rewrite Pos2Z.inj_mul. nia.
Qed.

(** Multiplication of positive finite numbers is monotone in both
    factors. *)
Lemma SFmul_mono_finite (ma mb mc md : positive) (ea eb ec ed : Z) :
  valid_binary (S754_finite false ma ea) = true ->
  valid_binary (S754_finite false mb eb) = true ->
  valid_binary (S754_finite false mc ec) = true ->
  valid_binary (S754_finite false md ed) = true ->
  SFleb (S754_finite false ma ea) (S754_finite false mb eb) = true ->
  SFleb (S754_finite false mc ec) (S754_finite false md ed) = true ->
  SFleb (SFmul prec emax (S754_finite false ma ea) (S754_finite false mc ec))
        (SFmul prec emax (S754_finite false mb eb) (S754_finite false md ed)) = true.
Proof.
  intros Va Vb Vc Vd Hab Hcd.
  destruct (valid_SFleb_value _ _ _ _ Va Vb Hab) as [Hea Hma].
  destruct (valid_SFleb_value _ _ _ _ Vc Vd Hcd) as [Hec Hmc].
  simpl SFmul. rewrite !binary_round_aux_SFround.
  apply SFround_le.
  - lia.
  - rewrite !Pos2Z.inj_mul.
    replace (eb + ed - (ea + ec)) with ((eb - ea) + (ed - ec)) by lia.
    rewrite Z.pow_add_r by lia.
    assert (0 < 2 ^ (eb - ea)) by (apply Z.pow_pos_nonneg; lia).
    assert (0 < 2 ^ (ed - ec)) by (apply Z.pow_pos_nonneg; lia).
    nia.
  - apply product_shift_nonneg; assumption.
Qed.

End Scaling.

Section Order.
Local Open Scope Z_scope.

Lemma SFleb_zero_round (s : bool) (M : positive) (E : Z) :
  SFleb (S754_zero s) (binary_round_aux prec emax false (Zpos M) E loc_Exact) = true.
Proof.
  pose proof (binary_round_aux_signed false M E) as H.
  destruct (binary_round_aux prec emax false (Zpos M) E loc_Exact) as [s'|s'| |s' m' e'];
    simpl in H; try discriminate H; destruct s'; try discriminate H; reflexivity.
Qed.

Lemma SFleb_round_infinity (M : positive) (E : Z) :
  SFleb (binary_round_aux prec emax false (Zpos M) E loc_Exact) (S754_infinity false) = true.
Proof.
  pose proof (binary_round_aux_signed false M E) as H.
  destruct (binary_round_aux prec emax false (Zpos M) E loc_Exact) as [s'|s'| |s' m' e'];
    simpl in H; try discriminate H; destruct s'; try discriminate H; reflexivity.
Qed.

(** Multiplication of non-negative numbers is monotone in both factors,
    wherever the two products are numbers (no zero times infinity). *)
Lemma SFmul_mono (a b c d : spec_float) :
  valid_binary a = true -> valid_binary b = true ->
  valid_binary c = true -> valid_binary d = true ->
  SFleb (S754_zero false) a = true -> SFleb (S754_zero false) c = true ->
  SFleb a b = true -> SFleb c d = true ->
  SFnumber (SFmul prec emax a c) = true -> SFnumber (SFmul prec emax b d) = true ->
  SFleb (SFmul prec emax a c) (SFmul prec emax b d) = true.
Proof.
  intros Va Vb Vc Vd Ha Hc Hab Hcd Hac Hbd.
  destruct a as [sa|sa| |sa ma ea]; try destruct sa; try discriminate Ha;
  destruct c as [sc|sc| |sc mc ec]; try destruct sc; try discriminate Hc;
  try discriminate Hac;
  destruct b as [sb|sb| |sb mb eb]; try destruct sb; try discriminate Hab;
  destruct d as [sd|sd| |sd md ed]; try destruct sd; try discriminate Hcd;
  try discriminate Hbd; try reflexivity;
  cbn [SFmul xorb];
  try apply SFleb_zero_round; try apply SFleb_round_infinity.
  apply (SFmul_mono_finite ma mb mc md ea eb ec ed); assumption.
Qed.

End Order.

Local Open Scope float_scope.

Lemma mul_mono (a b c d : float) :
  (0 <=? a) = true -> (0 <=? c) = true -> (a <=? b) = true -> (c <=? d) = true ->
  number (a * c) = true -> number (b * d) = true ->
  (a * c <=? b * d) = true.
Proof.
  rewrite !leb_zero_spec, !leb_spec. unfold number. rewrite !mul_spec.
  intros. apply SFmul_mono; auto using Prim2SF_valid.
Qed.

Lemma leb_refl (x : float) : number x = true -> (x <=? x) = true.
Proof.
  unfold number. rewrite leb_spec. intros H.
  pose proof (SFeqb_refl (Prim2SF x) H) as E. unfold SFeqb, SFleb in *.
  destruct (SFcompare (Prim2SF x) (Prim2SF x)) as [[| |]|]; try discriminate E; reflexivity.
Qed.

Lemma leb_number_r (a b : float) : (a <=? b) = true -> number b = true.
Proof.
  rewrite leb_spec. unfold number, SFleb.
  destruct (Prim2SF a), (Prim2SF b); simpl; try discriminate; reflexivity.
Qed.

Lemma leb_zero_trans (a b : float) :
  (0 <=? a) = true -> (a <=? b) = true -> (0 <=? b) = true.
Proof.
  rewrite !leb_zero_spec, leb_spec.
  destruct (Prim2SF a) as [s|s| |s m e], (Prim2SF b) as [s'|s'| |s' m' e'];
    try destruct s; try destruct s'; try discriminate; reflexivity.
Qed.

Lemma mul_constant_nonneg (x c : float) :
  (exists m e, Prim2SF c = S754_finite false m e) ->
  (0 <=? x) = true -> (0 <=? c * x) = true /\ number (c * x) = true.
Proof.
  intros (m & e & Ec) Hx. rewrite (mul_comm c x). split.
  - rewrite leb_zero_spec in *. rewrite mul_spec, Ec. apply SFmul_factor_nonneg, Hx.
  - apply mul_nonneg_constant_number; [exact Hx | rewrite Ec; reflexivity].
Qed.

(** X2. For every price p >= 0, the holiday price is at most the regular
    price. *)
Theorem holiday_at_most_regular (p : float) (Hp : (0 <=? p) = true) :
  (HolidayDiscount_ApplyDiscount Build_HolidayDiscount p <=? RegularDiscount_ApplyDiscount Build_RegularDiscount p) = true.
Proof.
  destruct constants as (E9 & E8 & _).
  unfold RegularDiscount_ApplyDiscount, HolidayDiscount_ApplyDiscount.
  apply mul_mono.
  - exact Hp.
  - reflexivity.
  - apply leb_refl, nonneg_number, Hp.
  - reflexivity.
  - apply mul_nonneg_constant_number; [exact Hp | rewrite E8; reflexivity].
  - apply mul_nonneg_constant_number; [exact Hp | rewrite E9; reflexivity].
Qed.

Lemma holiday_at_most_regular_witness :
  (0 <=? 100.0) = true /\
  (HolidayDiscount_ApplyDiscount Build_HolidayDiscount 100.0 <=? RegularDiscount_ApplyDiscount Build_RegularDiscount 100.0) = true.
Proof.
  split; [reflexivity|]. exact (holiday_at_most_regular 100.0 eq_refl).
Defined.

(** X3. Both ApplyDiscount methods are monotone on non-negative prices: a
    price that is not higher never gets a higher discounted price. *)
Theorem discount_monotone (p q : float) (Hp : (0 <=? p) = true) (Hpq : (p <=? q) = true) :
  (RegularDiscount_ApplyDiscount Build_RegularDiscount p <=? RegularDiscount_ApplyDiscount Build_RegularDiscount q) = true /\
  (HolidayDiscount_ApplyDiscount Build_HolidayDiscount p <=? HolidayDiscount_ApplyDiscount Build_HolidayDiscount q) = true.
Proof.
  destruct constants as (E9 & E8 & _).
  pose proof (leb_zero_trans p q Hp Hpq) as Hq.
  unfold RegularDiscount_ApplyDiscount, HolidayDiscount_ApplyDiscount.
  split; (apply mul_mono; [exact Hp | reflexivity | exact Hpq | reflexivity | |]);
    apply mul_nonneg_constant_number; try assumption;
    rewrite ?E9, ?E8; reflexivity.
Qed.

Lemma discount_monotone_witness :
  (0 <=? 50.0) = true /\ (50.0 <=? 100.0) = true /\
  (RegularDiscount_ApplyDiscount Build_RegularDiscount 50.0 <=? RegularDiscount_ApplyDiscount Build_RegularDiscount 100.0) = true.
Proof.
  split; [reflexivity|]. split; [reflexivity|].
  exact (proj1 (discount_monotone 50.0 100.0 eq_refl eq_refl)).
Defined.

(** X10. Both Area methods are monotone on non-negative dimensions: a
    square that is not wider, or a circle of no larger radius, never has the
    larger area (overflow to +Inf included). *)
Theorem area_monotone (x y : float) (Hx : (0 <=? x) = true) (Hxy : (x <=? y) = true) :
  (Square_Area {| Width := x |} <=? Square_Area {| Width := y |}) = true /\
  (Circle_Area {| Radius := x |} <=? Circle_Area {| Radius := y |}) = true.
Proof.
  destruct constants as (_ & _ & E).
  pose proof (leb_zero_trans x y Hx Hxy) as Hy.
  assert (Hc : exists m e, Prim2SF 3.14 = S754_finite false m e) by eauto.
  unfold Square_Area, Circle_Area. simpl Width. simpl Radius.
  split.
  - apply mul_mono; auto using square_number.
  - destruct (mul_constant_nonneg x 3.14 Hc Hx) as [Hax Hnx].
    destruct (mul_constant_nonneg y 3.14 Hc Hy) as [Hay Hny].
    apply mul_mono; auto using scaled_square_number.
    apply mul_mono; auto.
Qed.

Lemma area_monotone_witness :
  (0 <=? 3) = true /\ (3 <=? 5) = true /\
  (Circle_Area {| Radius := 3 |} <=? Circle_Area {| Radius := 5 |}) = true.
Proof.
  split; [reflexivity|]. split; [reflexivity|].
  exact (proj2 (area_monotone 3 5 eq_refl eq_refl)).
Defined.

(* ===================================================================== *)
(** ** Lines, records and saves *)
(* ===================================================================== *)

Local Close Scope float_scope.
Local Open Scope string_scope.

Section Lines.

Lemma append_empty_r (s : string) : s ++ "" = s.
Proof. induction s as [|c s IH]; simpl; [reflexivity|]. rewrite IH. reflexivity. Qed.

Lemma count_byte_zero_cons (c d : ascii) (s : string) :
  count_byte c (String d s) = 0 -> Ascii.eqb d c = false /\ count_byte c s = 0.
Proof.
  simpl. rewrite (Ascii.eqb_sym d c). destruct (Ascii.eqb c d); [discriminate|]. auto.
Qed.

(** A text without a newline, followed by one, is one line. *)
Lemma lines_terminated (s : string) :
  count_byte "010" s = 0 -> lines (s ++ lit "\n") = [s].
Proof.
  induction s as [|c s IH]; intros H; [reflexivity|].
  apply count_byte_zero_cons in H as [Hc Hs].
  simpl. rewrite Hc. change (String "010" "") with (lit "\n"). rewrite (IH Hs). reflexivity.
Qed.

Lemma append_inj_l (s a b : string) : s ++ a = s ++ b -> a = b.
Proof. induction s as [|c s IH]; simpl; intros H; [exact H|]. injection H. exact IH. Qed.

Lemma append_byte_inj (x y : string) (c : ascii) :
  x ++ String c "" = y ++ String c "" -> x = y.
Proof.
  revert y. induction x as [|a x IH]; intros [|b y] H; simpl in H.
  - reflexivity.
  - injection H as _ H. destruct y; discriminate H.
  - injection H as _ H. destruct x; discriminate H.
  - injection H as -> H. rewrite (IH y H). reflexivity.
Qed.

(** Two texts cut at their first occurrence of a byte: equal wholes have
    equal parts. *)
Lemma append_first_byte_inj (c : ascii) (t t' r r' : string) :
  count_byte c t = 0 -> count_byte c t' = 0 ->
  t ++ String c r = t' ++ String c r' -> t = t' /\ r = r'.
Proof.
  revert t'. induction t as [|a t IH]; intros [|b t'] Ht Ht' H; simpl in H.
  - injection H as ->. auto.
  - injection H as <- _. apply count_byte_zero_cons in Ht' as [Hb _].
    rewrite Ascii.eqb_refl in Hb. discriminate.
  - injection H as -> _. apply count_byte_zero_cons in Ht as [Ha _].
    rewrite Ascii.eqb_refl in Ha. discriminate.
  - injection H as -> H.
    apply count_byte_zero_cons in Ht as [_ Ht].
    apply count_byte_zero_cons in Ht' as [_ Ht'].
    destruct (IH t' Ht Ht' H) as [-> ->]. auto.
Qed.

Lemma write_inj (s t : string) : write s = write t -> s = t.
Proof. intros H. injection H. auto. Qed.

End Lines.

(** An output that ends its last line has one line per newline. *)
Lemma lines_length (s : string) :
  length (lines (s ++ lit "\n")) = count_byte "010" s + 1.
Proof.
  induction s as [|c s IH]; [reflexivity|].
  change (count_byte "010" (String c s))
    with ((if Ascii.eqb "010" c then 1 else 0) + count_byte "010" s).
  rewrite (Ascii.eqb_sym "010" c).
  change (String c s ++ lit "\n") with (String c (s ++ lit "\n")).
  cbn [lines]. destruct (Ascii.eqb c "010").
  - cbn [length]. rewrite IH. lia.
  - destruct (lines (s ++ lit "\n")) as [|l ls]; cbn [length] in *; lia.
Qed.

(** C4, as stated, fails: a title that contains a newline is written as it
    is, and the output is two lines, not one. *)
Lemma C4_newline_counterexample :
  lines (stdout (BookPrint_PrintDetails {| Title := lit "a\nb"; Author := "c" |})) =
    ["Title: a"; "b, Author: c"] /\
  length (lines (stdout (BookPrint_PrintDetails {| Title := lit "a\nb"; Author := "c" |}))) <> 1.
Proof. split; [reflexivity | discriminate]. Qed.

(** C4, amended. For every title and author, PrintDetails returns and
    writes exactly [Title: <title>, Author: <author>] and a newline: both
    fields are written as they are (any bytes, the empty string too),
    nothing is checked and there is no other outcome. The call adds one
    newline of its own, so the output has one line more than the fields
    have newlines, and it is exactly the one line
    [Title: <title>, Author: <author>] when neither field contains a
    newline. For "Clean Code" and "Robert C. Martin" the output is exactly
    [Title: Clean Code, Author: Robert C. Martin]. *)
Theorem C4_PrintDetails (title author : string)
  (Ht : count_byte "010" title = 0) (Ha : count_byte "010" author = 0) :
  (forall t a : string,
     BookPrint_PrintDetails {| Title := t; Author := a |} =
       write ("Title: " ++ t ++ ", Author: " ++ a ++ lit "\n")) /\
  (forall t a : string,
     count_byte "010" (stdout (BookPrint_PrintDetails {| Title := t; Author := a |})) =
       count_byte "010" t + count_byte "010" a + 1) /\
  (forall t a : string,
     length (lines (stdout (BookPrint_PrintDetails {| Title := t; Author := a |}))) =
       count_byte "010" t + count_byte "010" a + 1) /\
  lines (stdout (BookPrint_PrintDetails {| Title := title; Author := author |})) =
    ["Title: " ++ title ++ ", Author: " ++ author] /\
  BookPrint_PrintDetails {| Title := "Clean Code"; Author := "Robert C. Martin" |} =
    write (lit "Title: Clean Code, Author: Robert C. Martin\n") /\
  lines (stdout (BookPrint_PrintDetails {| Title := "Clean Code"; Author := "Robert C. Martin" |})) =
    ["Title: Clean Code, Author: Robert C. Martin"].
Proof.
  assert (Hcount : forall t a : string,
            count_byte "010" ("Title: " ++ t ++ ", Author: " ++ a) =
            count_byte "010" t + count_byte "010" a).
  { intros t a.
    rewrite (count_byte_app _ "Title: "), (count_byte_app _ t), (count_byte_app _ ", Author: ").
    simpl. lia. }
  assert (Hout : forall t a : string,
            stdout (BookPrint_PrintDetails {| Title := t; Author := a |}) =
            ("Title: " ++ t ++ ", Author: " ++ a) ++ lit "\n").
  { intros t a. rewrite BookPrint_PrintDetails_writes. unfold write, stdout, Title, Author.
    rewrite !append_assoc. reflexivity. }
  split; [intros t a; apply BookPrint_PrintDetails_writes|].
  split; [intros t a; rewrite Hout, count_byte_app, Hcount; simpl; lia|].
  split; [intros t a; rewrite Hout, lines_length, Hcount; reflexivity|].
  split; [|split; reflexivity].
  rewrite Hout. apply lines_terminated. rewrite Hcount, Ht, Ha. reflexivity.
Qed.

Lemma C4_PrintDetails_witness :
  count_byte "010" "Clean Code" = 0 /\ count_byte "010" "Robert C. Martin" = 0 /\
  lines (stdout (BookPrint_PrintDetails {| Title := "Clean Code"; Author := "Robert C. Martin" |})) =
    ["Title: " ++ "Clean Code" ++ ", Author: " ++ "Robert C. Martin"].
Proof.
  split; [reflexivity|]. split; [reflexivity|].
  pose proof (C4_PrintDetails "Clean Code" "Robert C. Martin" eq_refl eq_refl) as H.
  exact (proj1 (proj2 (proj2 (proj2 H)))).
Defined.

(** X11. When neither field contains a newline, PrintDetails writes exactly
    one line, and that line is [Title: <title>, Author: <author>]. *)
Theorem PrintDetails_one_line (title author : string)
  (Ht : count_byte "010" title = 0) (Ha : count_byte "010" author = 0) :
  lines (stdout (BookPrint_PrintDetails {| Title := title; Author := author |})) =
  ["Title: " ++ title ++ ", Author: " ++ author].
Proof.
  rewrite BookPrint_PrintDetails_writes. unfold write, stdout, Title, Author.
  rewrite <- (lines_terminated ("Title: " ++ title ++ ", Author: " ++ author)).
  - rewrite !append_assoc. reflexivity.
  - rewrite (count_byte_app _ "Title: "), (count_byte_app _ title),
      (count_byte_app _ ", Author: "), Ht, Ha. reflexivity.
Qed.

Lemma PrintDetails_one_line_witness :
  count_byte "010" "Clean Code" = 0 /\ count_byte "010" "Robert C. Martin" = 0 /\
  lines (stdout (BookPrint_PrintDetails {| Title := "Clean Code"; Author := "Robert C. Martin" |})) =
  ["Title: " ++ "Clean Code" ++ ", Author: " ++ "Robert C. Martin"].
Proof.
  split; [reflexivity|]. split; [reflexivity|].
  exact (PrintDetails_one_line "Clean Code" "Robert C. Martin" eq_refl eq_refl).
Defined.

(** X12. Among records whose title contains no comma, the output of
    PrintDetails determines the record: equal outputs come from equal titles
    and equal authors. *)
Theorem PrintDetails_determines_record (b1 b2 : BookPrint)
  (H1 : count_byte "," (Title b1) = 0) (H2 : count_byte "," (Title b2) = 0) :
  BookPrint_PrintDetails b1 = BookPrint_PrintDetails b2 -> b1 = b2.
Proof.
  rewrite !BookPrint_PrintDetails_writes. intros H. apply write_inj in H.
  apply (append_inj_l "Title: ") in H.
  change (", Author: " ++ Author b1 ++ lit "\n")
    with (String "," (" Author: " ++ Author b1 ++ lit "\n")) in H.
  change (", Author: " ++ Author b2 ++ lit "\n")
    with (String "," (" Author: " ++ Author b2 ++ lit "\n")) in H.
  apply append_first_byte_inj in H as [Ht Hr]; [|assumption|assumption].
  apply (append_inj_l " Author: ") in Hr. apply append_byte_inj in Hr.
  destruct b1, b2; simpl in *; subst; reflexivity.
Qed.

Lemma PrintDetails_determines_record_witness :
  count_byte "," "Clean Code" = 0 /\
  {| Title := "Clean Code"; Author := "Robert C. Martin" |} =
  {| Title := "Clean Code"; Author := "Robert C. Martin" |}.
Proof.
  split; [reflexivity|].
  exact (PrintDetails_determines_record
           {| Title := "Clean Code"; Author := "Robert C. Martin" |}
           {| Title := "Clean Code"; Author := "Robert C. Martin" |}
           eq_refl eq_refl eq_refl).
Defined.

(** X13. Without that restriction the output does not determine the
    record: the fields are written unescaped, and two different records
    print the same line. *)
Theorem PrintDetails_ambiguous :
  exists b1 b2 : BookPrint,
    b1 <> b2 /\ BookPrint_PrintDetails b1 = BookPrint_PrintDetails b2.
Proof.
  exists {| Title := "a, Author: b"; Author := "c" |},
         {| Title := "a"; Author := "b, Author: c" |}.
  split; [discriminate | reflexivity].
Qed.

(** X14. The line a Save writes determines the data and the backend: each
    Save writes equal output only for equal data, and no database output
    equals a filesystem output, whatever the two data are, also through
    the managers. *)
Theorem Save_line_determines_backend_and_data (db db' : Database) (fs fs' : Filesystem)
  (x y : string) :
  (Database_Save db x = Database_Save db' y <-> x = y) /\
  (Filesystem_Save fs x = Filesystem_Save fs' y <-> x = y) /\
  Database_Save db x <> Filesystem_Save fs y /\
  DataManager_SaveData (NewDataManager (Storage_of db)) x <>
    DataManager_SaveData (NewDataManager (Storage_of fs)) y.
Proof.
  rewrite !DataManager_SaveData_forwards. simpl Save.
  rewrite !Database_Save_writes, !Filesystem_Save_writes.
  split; [|split; [|split; apply save_lines_differ]].
  - split; [|intros ->; reflexivity].
    intros H. apply write_inj, append_inj_l, append_byte_inj in H. exact H.
  - split; [|intros ->; reflexivity].
    intros H. apply write_inj, append_inj_l, append_byte_inj in H. exact H.
Qed.

(** X15. For data without a newline each Save writes exactly one line, the
    label followed by the data. *)
Theorem Save_one_line (db : Database) (fs : Filesystem) (data : string)
  (Hd : count_byte "010" data = 0) :
  lines (stdout (Database_Save db data)) = ["Saving data to the database: " ++ data] /\
  lines (stdout (Filesystem_Save fs data)) = ["Saving data to the filesystem: " ++ data].
Proof.
  rewrite Database_Save_writes, Filesystem_Save_writes. unfold write, stdout.
  split.
  - rewrite <- (lines_terminated ("Saving data to the database: " ++ data)).
    + rewrite !append_assoc. reflexivity.
    + rewrite count_byte_app, Hd. reflexivity.
  - rewrite <- (lines_terminated ("Saving data to the filesystem: " ++ data)).
    + rewrite !append_assoc. reflexivity.
    + rewrite count_byte_app, Hd. reflexivity.
Qed.

Lemma Save_one_line_witness :
  count_byte "010" "X" = 0 /\
  lines (stdout (Database_Save Build_Database "X")) = ["Saving data to the database: " ++ "X"].
Proof.
  split; [reflexivity|].
  exact (proj1 (Save_one_line Build_Database Build_Filesystem "X" eq_refl)).
Defined.

(** X16. SaveData returns exactly when its receiver is a manager holding a
    non-nil Storage whose Save returns on the data; on a nil receiver and on
    a manager holding the nil Storage it panics with a nil dereference. *)
Theorem SaveData_succeeds_iff (dm : ptr DataManager) (data : string) :
  (succeeds (DataManager_SaveData dm data) <->
   exists (T : Type) (M : Storage_methods T) (v : T),
     dm = NewDataManager (Storage_of v) /\ succeeds (Save v data)) /\
  DataManager_SaveData nil data = raise NilDereference /\
  DataManager_SaveData (NewDataManager Storage_nil) data = raise NilDereference.
Proof.
  split; [|split; reflexivity].
  split.
  - destruct dm as [[[|T M v]]|]; simpl; intros H.
    + destruct (raise_fails _ H).
    + exists T, M, v. split; [reflexivity | exact H].
    + destruct (raise_fails _ H).
  - intros (T & M & v & -> & H). exact H.
Qed.

(** X17. A SaveData through a manager holding the nil Storage ends the
    run: the save made before it stays written, and whatever statement
    follows it does not run. *)
Theorem SaveData_nil_storage_aborts (db : Database) (x y : string) (rest : run unit) :
  (DataManager_SaveData (NewDataManager (Storage_of db)) x ;;
   DataManager_SaveData (NewDataManager Storage_nil) y ;;
   rest) =
  {| stdout := "Saving data to the database: " ++ x ++ lit "\n";
     result := Panicked NilDereference |}.
Proof.
  rewrite DataManager_SaveData_forwards, DataManager_SaveData_nil_storage.
  simpl Save. rewrite Database_Save_writes.
  unfold bind, write, raise. simpl. rewrite append_empty_r. reflexivity.
Qed.

